(** * Folder flattener: a shallow embedding of [folder_flattener.py]

    The Python script walks a nested directory tree and copies or moves every
    (filter-eligible) file into one flat directory.  The embedding keeps the
    structure of the script:

    - [get_all_files]        discovery ([os.walk] plus the extension filter);
    - [files_are_identical]  size check, then chunked SHA-256 comparison,
                             wrapped in [try ... except Exception: return False];
    - [handle_name_conflict] the [while True] scan over [name_NNN.ext];
    - [flatten_folder]       the per-file loop with its [try/except].

    The operating system is an explicit state: a directory tree whose
    directories list their entries in the order [os.scandir] reports them,
    with a read permission on files and a write permission on directories.
    Paths are lists of components ([os.path.join] appends a component,
    [os.path.basename] takes the last one).  Exceptions are values of
    [result]; a loop that would not come back is [None] / [Diverged]. *)

From Stdlib Require Import List String Ascii Bool Arith Lia.
From Stdlib Require Import Strings.Byte.
From Stdlib Require Decimal DecimalNat DecimalString.
Import ListNotations.

Set Implicit Arguments.
Local Open Scope string_scope.
Local Open Scope list_scope.

(* ================================================================== *)
(** ** Exceptions and results *)

Inductive exn : Type :=
| FileNotFoundError
| PermissionError
| IsADirectoryError
| NotADirectoryError
| FileExistsError
| SameFileError
| ShutilError.

Inductive result (A : Type) : Type :=
| Ok (a : A)
| Raise (e : exn).

Arguments Ok {A} a.
Arguments Raise {A} e.

Definition bind {A B : Type} (m : result A) (k : A -> result B) : result B :=
  match m with
  | Ok a => k a
  | Raise e => Raise e
  end.

Notation "x <- m ;; k" := (bind m (fun x => k))
  (at level 61, m at next level, right associativity).

(* ================================================================== *)
(** ** Paths and file names *)

Definition path := list string.

Module OsPath.

(** [os.path.join(dir, name)] for a single component. *)
Definition join (dir : path) (name : string) : path := dir ++ [name].

(** [os.path.basename]. *)
Definition basename (p : path) : string := last p EmptyString.

(** [os.path.dirname]. *)
Definition dirname (p : path) : path := removelast p.

Definition is_dot (c : ascii) : bool := Ascii.eqb c ".".

(** [str.rfind(".")]: index of the last dot. *)
Fixpoint rfind_dot (l : list ascii) : option nat :=
  match l with
  | [] => None
  | c :: l' =>
      match rfind_dot l' with
      | Some i => Some (S i)
      | None => if is_dot c then Some 0 else None
      end
  end.

(** [os.path.splitext] on a file name (no separator in it): split at the
    last dot, unless every character before it is a dot as well. *)
Definition splitext (filename : string) : string * string :=
  let p := list_ascii_of_string filename in
  match rfind_dot p with
  | Some dotIndex =>
      if existsb (fun c => negb (is_dot c)) (firstn dotIndex p)
      then (string_of_list_ascii (firstn dotIndex p),
            string_of_list_ascii (skipn dotIndex p))
      else (filename, EmptyString)
  | None => (filename, EmptyString)
  end.

End OsPath.

Module Str.

(** [str.lower()] on ASCII letters. *)
Definition lower_ascii (c : ascii) : ascii :=
  let n := nat_of_ascii c in
  if ((65 <=? n) && (n <=? 90))%nat then ascii_of_nat (n + 32) else c.

Definition lower (s : string) : string :=
  string_of_list_ascii (map lower_ascii (list_ascii_of_string s)).

Fixpoint lstrip_dots (l : list ascii) : list ascii :=
  match l with
  | c :: l' => if OsPath.is_dot c then lstrip_dots l' else l
  | [] => []
  end.

(** [str.strip('.')]: dots removed at both ends. *)
Definition strip_dots (s : string) : string :=
  string_of_list_ascii
    (rev (lstrip_dots (rev (lstrip_dots (list_ascii_of_string s))))).

Definition zero_pad (width : nat) (s : string) : string :=
  (string_of_list_ascii (repeat "0"%char (width - String.length s)) ++ s)%string.

(** The format [{counter:03d}]: decimal, zero-padded to at least 3 digits. *)
Definition format_03d (counter : nat) : string :=
  zero_pad 3 (DecimalString.NilEmpty.string_of_uint (Nat.to_uint counter)).

(** Reading a run of decimal digits back (leading zeros allowed). *)
Definition parse_decimal (s : string) : option nat :=
  option_map Nat.of_uint (DecimalString.NilEmpty.uint_of_string s).

Definition mem (s : string) (l : list string) : bool :=
  existsb (String.eqb s) l.

End Str.

Fixpoint path_eqb (p q : path) : bool :=
  match p, q with
  | [], [] => true
  | a :: p', b :: q' => String.eqb a b && path_eqb p' q'
  | _, _ => false
  end.

(* ================================================================== *)
(** ** The file system *)

Record file : Type := mkFile {
  content : list byte;
  readable : bool
}.

#[local] Set Warnings "-register-all".

Inductive node : Type :=
| File (f : file)
| Dir (writable : bool) (entries : list (string * node)).

(** The whole file system is its root directory. *)
Definition fs := node.

Module Fs.

Fixpoint child (name : string) (es : list (string * node)) : option node :=
  match es with
  | [] => None
  | (n, x) :: es' => if String.eqb name n then Some x else child name es'
  end.

(** Replace the entry called [name], or add it at the end of the listing. *)
Fixpoint set_child (name : string) (x : node) (es : list (string * node))
  : list (string * node) :=
  match es with
  | [] => [(name, x)]
  | (n, y) :: es' =>
      if String.eqb name n then (n, x) :: es'
      else (n, y) :: set_child name x es'
  end.

Fixpoint del_child (name : string) (es : list (string * node))
  : list (string * node) :=
  match es with
  | [] => []
  | (n, y) :: es' =>
      if String.eqb name n then es' else (n, y) :: del_child name es'
  end.

Fixpoint lookup (t : node) (p : path) : option node :=
  match p with
  | [] => Some t
  | c :: p' =>
      match t with
      | Dir _ es =>
          match child c es with
          | Some sub => lookup sub p'
          | None => None
          end
      | File _ => None
      end
  end.

(** Store [x] at [p]; the directory that is to hold it must exist. *)
Fixpoint put (t : node) (p : path) (x : node) : option node :=
  match p with
  | [] => Some x
  | c :: p' =>
      match t with
      | Dir w es =>
          match p' with
          | [] => Some (Dir w (set_child c x es))
          | _ :: _ =>
              match child c es with
              | Some sub =>
                  match put sub p' x with
                  | Some sub' => Some (Dir w (set_child c sub' es))
                  | None => None
                  end
              | None => None
              end
          end
      | File _ => None
      end
  end.

Fixpoint remove (t : node) (p : path) : option node :=
  match p with
  | [] => None
  | c :: p' =>
      match t with
      | Dir w es =>
          match p' with
          | [] => Some (Dir w (del_child c es))
          | _ :: _ =>
              match child c es with
              | Some sub =>
                  match remove sub p' with
                  | Some sub' => Some (Dir w (set_child c sub' es))
                  | None => None
                  end
              | None => None
              end
          end
      | File _ => None
      end
  end.

(** May an entry be created in, or removed from, the directory at [dir]? *)
Definition check_dir_writable (t : fs) (dir : path) : result unit :=
  match lookup t dir with
  | None => Raise FileNotFoundError
  | Some (File _) => Raise NotADirectoryError
  | Some (Dir w _) => if w then Ok tt else Raise PermissionError
  end.

End Fs.

(** Size reported by [stat] for a directory; no result below depends on it. *)
Definition dir_stat_size : nat := 4096.
Arguments dir_stat_size : simpl never.

Module Os.

(** [os.path.exists]. *)
Definition path_exists (t : fs) (p : path) : bool :=
  match Fs.lookup t p with Some _ => true | None => false end.

(** [os.path.isdir]. *)
Definition isdir (t : fs) (p : path) : bool :=
  match Fs.lookup t p with Some (Dir _ _) => true | _ => false end.

(** [os.path.getsize]: a [stat], no read permission needed. *)
Definition getsize (t : fs) (p : path) : result nat :=
  match Fs.lookup t p with
  | Some (File f) => Ok (List.length (content f))
  | Some (Dir _ _) => Ok dir_stat_size
  | None => Raise FileNotFoundError
  end.

(** [open(p, "rb")] followed by reads: the bytes of the file. *)
Definition open_rb (t : fs) (p : path) : result (list byte) :=
  match Fs.lookup t p with
  | Some (File f) => if readable f then Ok (content f) else Raise PermissionError
  | Some (Dir _ _) => Raise IsADirectoryError
  | None => Raise FileNotFoundError
  end.

(** Walk down [p], creating what is missing ([os.mkdir] level by level). *)
Fixpoint makedirs_from (t : node) (p : path) : result node :=
  match p with
  | [] =>
      match t with
      | Dir _ _ => Ok t
      | File _ => Raise FileExistsError
      end
  | c :: p' =>
      match t with
      | File _ => Raise NotADirectoryError
      | Dir w es =>
          match Fs.child c es with
          | Some sub =>
              sub' <- makedirs_from sub p' ;;
              Ok (Dir w (Fs.set_child c sub' es))
          | None =>
              if w then
                sub' <- makedirs_from (Dir true []) p' ;;
                Ok (Dir w (Fs.set_child c sub' es))
              else Raise PermissionError
          end
      end
  end.

(** [os.makedirs(p, exist_ok=True)]: missing directories are created along
    [p]; an existing directory at [p] is not an error. *)
Definition makedirs (t : fs) (p : path) : result fs := makedirs_from t p.

(** [os.unlink]. *)
Definition unlink (t : fs) (p : path) : result fs :=
  match Fs.lookup t p with
  | None => Raise FileNotFoundError
  | Some (Dir _ _) => Raise IsADirectoryError
  | Some (File _) =>
      _ <- Fs.check_dir_writable t (OsPath.dirname p) ;;
      match Fs.remove t p with
      | Some t' => Ok t'
      | None => Raise FileNotFoundError
      end
  end.

(** [os.rename] of a file onto a free name or onto another file. *)
Definition rename (t : fs) (src dst : path) : result fs :=
  match Fs.lookup t src with
  | None => Raise FileNotFoundError
  | Some (Dir _ _) => Raise IsADirectoryError
  | Some (File f) =>
      if path_eqb src dst then Ok t
      else
        match Fs.lookup t dst with
        | Some (Dir _ _) => Raise IsADirectoryError
        | _ =>
            _ <- Fs.check_dir_writable t (OsPath.dirname src) ;;
            _ <- Fs.check_dir_writable t (OsPath.dirname dst) ;;
            match Fs.remove t src with
            | Some t1 =>
                match Fs.put t1 dst (File f) with
                | Some t2 => Ok t2
                | None => Raise FileNotFoundError
                end
            | None => Raise FileNotFoundError
            end
        end
  end.

End Os.

Module Shutil.

(** [open(dst, "wb")], the write, and [copystat]: [dst] ends up holding
    [f], permission bits included. *)
Definition write_file (t : fs) (dst : path) (f : file) : result fs :=
  match Fs.lookup t dst with
  | Some (Dir _ _) => Raise IsADirectoryError
  | Some (File _) =>
      match Fs.put t dst (File f) with
      | Some t' => Ok t'
      | None => Raise FileNotFoundError
      end
  | None =>
      _ <- Fs.check_dir_writable t (OsPath.dirname dst) ;;
      match Fs.put t dst (File f) with
      | Some t' => Ok t'
      | None => Raise FileNotFoundError
      end
  end.

(** [shutil.copy2(src, dst)]. *)
Definition copy2 (t : fs) (src dst : path) : result fs :=
  let dst := if Os.isdir t dst then OsPath.join dst (OsPath.basename src)
             else dst in
  if path_eqb src dst && Os.path_exists t src then Raise SameFileError
  else
    match Fs.lookup t src with
    | None => Raise FileNotFoundError
    | Some (Dir _ _) => Raise IsADirectoryError
    | Some (File f) =>
        if readable f then write_file t dst f else Raise PermissionError
    end.

(** [shutil.move(src, dst)] for a regular file: [os.rename], and when that
    raises, [copy2] followed by [os.unlink].  The state comes back together
    with the outcome, since the copy can succeed and the unlink fail. *)
Definition move (t : fs) (src dst : path) : fs * result unit :=
  let real_dst :=
    if Os.isdir t dst then OsPath.join dst (OsPath.basename src) else dst in
  if Os.isdir t dst && Os.path_exists t real_dst then (t, Raise ShutilError)
  else
    match Os.rename t src real_dst with
    | Ok t' => (t', Ok tt)
    | Raise _ =>
        match copy2 t src real_dst with
        | Raise e => (t, Raise e)
        | Ok t1 =>
            match Os.unlink t1 src with
            | Ok t2 => (t2, Ok tt)
            | Raise e => (t1, Raise e)
            end
        end
    end.

End Shutil.

(* ================================================================== *)
(** ** The script *)

(** The [results] dictionary of [flatten_folder]. *)
Record results : Type := mkResults {
  processed : nat;
  skipped : nat;
  conflicts : nat;
  errors : nat;
  error_files : list path
}.

Definition results0 : results := mkResults 0 0 0 0 [].

Definition incr_processed (r : results) : results :=
  mkResults (S (processed r)) (skipped r) (conflicts r) (errors r) (error_files r).
Definition incr_skipped (r : results) : results :=
  mkResults (processed r) (S (skipped r)) (conflicts r) (errors r) (error_files r).
Definition incr_conflicts (r : results) : results :=
  mkResults (processed r) (skipped r) (S (conflicts r)) (errors r) (error_files r).
(** The [except Exception] block of the loop. *)
Definition record_error (r : results) (source_file : path) : results :=
  mkResults (processed r) (skipped r) (conflicts r) (S (errors r))
            (error_files r ++ [source_file]).

(** What a call of [flatten_folder] comes to. *)
Inductive outcome : Type :=
| Returned (t : fs) (r : results)
| Raised (e : exn)
| Diverged.

(** Python truthiness of the [extensions] argument: [None] and [[]] are
    false. *)
Definition truthy (extensions : option (list string)) : bool :=
  match extensions with
  | Some (_ :: _) => true
  | _ => false
  end.

(** The chunks that [f.read(n)] returns, up to the first empty one (the
    sentinel of [iter]). *)
Fixpoint read_chunks (fuel n : nat) (data : list byte) : list (list byte) :=
  match fuel with
  | 0 => []
  | S fuel' =>
      match data with
      | [] => []
      | _ :: _ => firstn n data :: read_chunks fuel' n (skipn n data)
      end
  end.

(** [os.walk(top)] below a node: one triple (root, dirs, files) per
    directory, the directory itself first, then its sub-directories in
    listing order. *)
Fixpoint walk (top : path) (t : node)
  : list (path * list string * list string) :=
  match t with
  | File _ => []
  | Dir _ es =>
      let dirs :=
        flat_map (fun e => match snd e with Dir _ _ => [fst e] | File _ => [] end) es in
      let files :=
        flat_map (fun e => match snd e with File _ => [fst e] | Dir _ _ => [] end) es in
      (top, dirs, files) ::
      (fix walk_entries (es : list (string * node)) :=
         match es with
         | [] => []
         | (name, sub) :: es' =>
             walk (OsPath.join top name) sub ++ walk_entries es'
         end) es
  end.

(** [os.walk]: nothing is yielded when [top] is missing or is not a
    directory (the [scandir] error is swallowed, [onerror] being [None]). *)
Definition os_walk (t : fs) (top : path)
  : list (path * list string * list string) :=
  match Fs.lookup t top with
  | Some x => walk top x
  | None => []
  end.

Section Script.

(** [hashlib.sha256(data).hexdigest()]. *)
Variable sha256_hexdigest : list byte -> string.

(** The hash object: the message fed so far. *)
Definition hash_new : list byte := [].
Definition hash_update (h chunk : list byte) : list byte := h ++ chunk.

(** [get_all_files] *)
Definition normalize_extensions (extensions : option (list string))
  : option (list string) :=
  if truthy extensions
  then option_map (map (fun ext => Str.strip_dots (Str.lower ext))) extensions
  else extensions.

Definition extension_matches (extensions : option (list string))
           (file : string) : bool :=
  if truthy extensions then
    let file_ext := Str.strip_dots (Str.lower (snd (OsPath.splitext file))) in
    match extensions with
    | Some l => Str.mem file_ext l
    | None => false
    end
  else true.

Definition get_all_files (t : fs) (input_dir : path)
           (extensions : option (list string)) : list path :=
  let extensions := normalize_extensions extensions in
  flat_map
    (fun '(root, dirs, files) =>
       flat_map
         (fun file =>
            let file_path := OsPath.join root file in
            if extension_matches extensions file then [file_path] else [])
         files)
    (os_walk t input_dir).

(** [files_are_identical]: the body of the [try] first. *)
Definition get_file_hash (t : fs) (filepath : path) : result string :=
  data <- Os.open_rb t filepath ;;
  Ok (sha256_hexdigest
        (fold_left hash_update
                   (read_chunks (List.length data) 4096 data) hash_new)).

Definition compare_files (t : fs) (file1 file2 : path) : result bool :=
  size1 <- Os.getsize t file1 ;;
  size2 <- Os.getsize t file2 ;;
  if negb (Nat.eqb size1 size2) then Ok false
  else
    h1 <- get_file_hash t file1 ;;
    h2 <- get_file_hash t file2 ;;
    Ok (String.eqb h1 h2).

Definition files_are_identical (t : fs) (file1 file2 : path) : bool :=
  match compare_files t file1 file2 with
  | Ok b => b
  | Raise _ => false   (* except Exception: ... return False *)
  end.

(** [handle_name_conflict] *)
Definition candidate (dir_path : path) (name ext : string) (counter : nat)
  : path :=
  let new_filename := (name ++ "_" ++ Str.format_03d counter ++ ext)%string in
  OsPath.join dir_path new_filename.

(** The [while True] loop, [fuel] iterations of it. *)
Fixpoint scan_names (fuel : nat) (t : fs) (dir_path : path)
         (name ext : string) (counter : nat) : option path :=
  match fuel with
  | 0 => None
  | S fuel' =>
      let new_path := candidate dir_path name ext counter in
      if negb (Os.path_exists t new_path) then Some new_path
      else scan_names fuel' t dir_path name ext (S counter)
  end.

(** One more than the number of entries of the directory: as many
    iterations as the loop can need. *)
Definition scan_bound (t : fs) (dir_path : path) : nat :=
  match Fs.lookup t dir_path with
  | Some (Dir _ es) => S (List.length es)
  | _ => 1
  end.

Definition handle_name_conflict (t : fs) (dest_path : path) : option path :=
  if negb (Os.path_exists t dest_path) then Some dest_path
  else
    let dir_path := OsPath.dirname dest_path in
    let filename := OsPath.basename dest_path in
    let '(name, ext) := OsPath.splitext filename in
    scan_names (scan_bound t dir_path) t dir_path name ext 1.

(** [flatten_folder] *)

(** The two [pass] branches taken when the name is free. *)
Definition conflict_resolution_branch (conflict_resolution : string)
           (r : results) : results :=
  if String.eqb conflict_resolution "skip" then r
  else if String.eqb conflict_resolution "overwrite" then r
  else r.

(** "Move or copy the file": the state afterwards, and whether the call
    raised. *)
Definition transfer (move_files : bool) (t : fs)
           (source_file dest_path : path) : fs * result unit :=
  if move_files then Shutil.move t source_file dest_path
  else
    match Shutil.copy2 t source_file dest_path with
    | Ok t' => (t', Ok tt)
    | Raise e => (t, Raise e)
    end.

(** The transfer, then [results['processed'] += 1]; an exception lands in
    the [except] block. *)
Definition place (move_files : bool) (t : fs) (r : results)
           (source_file dest_path : path) : fs * results :=
  match transfer move_files t source_file dest_path with
  | (t', Ok _) => (t', incr_processed r)
  | (t', Raise _) => (t', record_error r source_file)
  end.

(** One iteration of [for source_file in all_files]. *)
Definition flatten_step (output_dir : path) (move_files : bool)
           (conflict_resolution : string) (st : fs * results)
           (source_file : path) : option (fs * results) :=
  let '(t, r) := st in
  let filename := OsPath.basename source_file in
  let dest_path := OsPath.join output_dir filename in
  if Os.path_exists t dest_path then
    let r := incr_conflicts r in
    if files_are_identical t source_file dest_path then
      Some (t, incr_skipped r)
    else
      match handle_name_conflict t dest_path with
      | Some dest_path => Some (place move_files t r source_file dest_path)
      | None => None
      end
  else
    let r := conflict_resolution_branch conflict_resolution r in
    Some (place move_files t r source_file dest_path).

Fixpoint flatten_loop (output_dir : path) (move_files : bool)
         (conflict_resolution : string) (all_files : list path)
         (st : fs * results) : option (fs * results) :=
  match all_files with
  | [] => Some st
  | source_file :: rest =>
      match flatten_step output_dir move_files conflict_resolution st
                         source_file with
      | Some st' =>
          flatten_loop output_dir move_files conflict_resolution rest st'
      | None => None
      end
  end.

Definition flatten_folder (t : fs) (input_dir output_dir : path)
           (extensions : option (list string)) (move_files : bool)
           (conflict_resolution : string) : outcome :=
  match Os.makedirs t output_dir with
  | Raise e => Raised e
  | Ok t1 =>
      let all_files := get_all_files t1 input_dir extensions in
      match flatten_loop output_dir move_files conflict_resolution
                         all_files (t1, results0) with
      | Some (t', r) => Returned t' r
      | None => Diverged
      end
  end.

End Script.

(* ================================================================== *)
(** ** Vocabulary of the properties *)

Definition is_dir (x : node) : Prop :=
  match x with Dir _ _ => True | File _ => False end.

(** [y] stands where [x] stood: the same file, or again a directory. *)
Definition node_kept (x y : node) : Prop :=
  match x with
  | File f => y = File f
  | Dir _ _ => is_dir y
  end.

(** The file system after some copies: what was there is still there. *)
Definition fs_grows (t t' : fs) : Prop :=
  forall (q : path) (n : node),
    Fs.lookup t q = Some n ->
    exists n', Fs.lookup t' q = Some n' /\ node_kept n n'.

(** Both are readable regular files of one size and one digest. *)
Definition identical_files (sha256_hexdigest : list byte -> string) (t : fs)
         (a b : path) : Prop :=
  exists fa fb,
    Fs.lookup t a = Some (File fa) /\ Fs.lookup t b = Some (File fb)
    /\ readable fa = true /\ readable fb = true
    /\ List.length (content fa) = List.length (content fb)
    /\ sha256_hexdigest (content fa) = sha256_hexdigest (content fb).

(** The three ways one iteration of the loop can end. *)
Inductive step_kind (move_files : bool) (t : fs) (r : results) (s : path)
: fs * results -> Prop :=
| StepSkipped :
    step_kind move_files t r s (t, incr_skipped (incr_conflicts r))
| StepPlaced (conflict : bool) (d : path) (t' : fs) :
    transfer move_files t s d = (t', Ok tt) ->
    step_kind move_files t r s
      (t', incr_processed (if conflict then incr_conflicts r else r))
| StepFailed (conflict : bool) (d : path) (t' : fs) (e : exn) :
    transfer move_files t s d = (t', Raise e) ->
    step_kind move_files t r s
      (t', record_error (if conflict then incr_conflicts r else r) s).

(** The files of a tree in the order discovery reports them: those of the
    directory itself as listed, then those of each entry in turn. *)
Fixpoint files_in_order (extensions : option (list string)) (top : path)
         (x : node) : list path :=
  match x with
  | File _ => []
  | Dir _ es =>
      flat_map
        (fun e =>
           match snd e with
           | File _ =>
               if extension_matches extensions (fst e)
               then [OsPath.join top (fst e)] else []
           | Dir _ _ => []
           end) es
      ++ (fix below (es : list (string * node)) :=
            match es with
            | [] => []
            | (name, sub) :: es' =>
                files_in_order extensions (OsPath.join top name) sub
                ++ below es'
            end) es
  end.

Definition own_files (extensions : option (list string)) (top : path)
           (es : list (string * node)) : list path :=
  flat_map
    (fun e =>
       match snd e with
       | File _ =>
           if extension_matches extensions (fst e)
           then [OsPath.join top (fst e)] else []
       | Dir _ _ => []
       end) es.

Definition files_below (extensions : option (list string)) (top : path)
           (es : list (string * node)) : list path :=
  flat_map (fun e => files_in_order extensions (OsPath.join top (fst e)) (snd e))
           es.

(** What [get_all_files] collects from the triples of a walk. *)
Definition collect (extensions : option (list string))
           (triples : list (path * list string * list string)) : list path :=
  flat_map
    (fun '(root, dirs, files) =>
       flat_map
         (fun file =>
            let file_path := OsPath.join root file in
            if extension_matches extensions file then [file_path] else [])
         files)
    triples.

Definition files_at (extensions : option (list string)) (top : path)
           (x : option node) : list path :=
  match x with
  | Some y => files_in_order extensions top y
  | None => []
  end.

(** The [while True] loop of [handle_name_conflict] as it runs, with no
    bound on its iterations: started at [counter], it returns [p]. *)
Inductive scan_returns (t : fs) (dir_path : path) (name ext : string)
  : nat -> path -> Prop :=
| ScanFree (counter : nat) :
    Os.path_exists t (candidate dir_path name ext counter) = false ->
    scan_returns t dir_path name ext counter
                 (candidate dir_path name ext counter)
| ScanTaken (counter : nat) (p : path) :
    Os.path_exists t (candidate dir_path name ext counter) = true ->
    scan_returns t dir_path name ext (S counter) p ->
    scan_returns t dir_path name ext counter p.

(** Where the loop first means to put a source file. *)
Definition desired_dest (output_dir source_file : path) : path :=
  OsPath.join output_dir (OsPath.basename source_file).

(** The destination the loop settles on for a file it does not skip. *)
Definition resolves_to (sha256_hexdigest : list byte -> string)
           (output_dir : path) (t : fs) (source_file dest_path : path) : Prop :=
  if Os.path_exists t (desired_dest output_dir source_file) then
    files_are_identical sha256_hexdigest t source_file
                        (desired_dest output_dir source_file) = false
    /\ handle_name_conflict t (desired_dest output_dir source_file)
       = Some dest_path
  else dest_path = desired_dest output_dir source_file.

(** A path below [input_dir], written with slashes. *)
Definition relative_path (input_dir p : path) : string :=
  String.concat "/" (skipn (List.length input_dir) p).

(** Lexicographic order, each name not above the next one. *)
Fixpoint lex_sorted (names : list string) : bool :=
  match names with
  | a :: (b :: _) as rest => String.leb a b && lex_sorted rest
  | _ => true
  end.

(** *** Sample file systems *)

(** A stand-in for SHA-256 in the samples: the content itself, in
    hexadecimal-free form, so that no two contents collide. *)
Definition plain_digest (data : list byte) : string :=
  string_of_list_byte data.

Definition sample_file (data : list byte) : node := File (mkFile data true).
Definition locked_file (data : list byte) : node := File (mkFile data false).

(** [src/z.txt] and [src/a/b.txt]. *)
Definition tree_two_levels : node :=
  Dir true [("a", Dir true [("b.txt", sample_file [x01])]);
            ("z.txt", sample_file [x02])].

Definition fs_two_levels : fs := Dir true [("src", tree_two_levels)].

(** The same source tree next to a destination directory. *)
Definition fs_two_levels_dest : fs :=
  Dir true [("dst", Dir true []); ("src", tree_two_levels)].

(** [src/a/x.wav] and [src/b/x.wav] with different contents, nothing yet in
    the destination. *)
Definition fs_same_name : fs :=
  Dir true
    [("src", Dir true [("a", Dir true [("x.wav", sample_file [x01])]);
                       ("b", Dir true [("x.wav", sample_file [x02; x03])])])].

(** [dst/x.wav] is there already and cannot be read. *)
Definition fs_locked_dest : fs :=
  Dir true
    [("src", Dir true [("a", Dir true [("x.wav", sample_file [x01])])]);
     ("dst", Dir true [("x.wav", locked_file [x02])])].

(** [src/a/x.wav] cannot be read, [src/a/y.wav] can. *)
Definition fs_locked_source : fs :=
  Dir true
    [("src", Dir true [("a", Dir true [("x.wav", locked_file [x01]);
                                       ("y.wav", sample_file [x02])])]);
     ("dst", Dir true [])].

(** [fs_two_levels] after one copying run into [dst]. *)
Definition fs_two_levels_flat : fs :=
  Dir true
    [("src", tree_two_levels);
     ("dst", Dir true [("z.txt", sample_file [x02]);
                       ("b.txt", sample_file [x01])])].

(** Nothing at all: neither [src] nor [dst]. *)
Definition fs_empty : fs := Dir true [].

(** [dst] already holds [x.wav] and [x_001.wav]. *)
Definition fs_taken_names : fs :=
  Dir true
    [("dst", Dir true [("x.wav", sample_file [x01]);
                       ("x_001.wav", sample_file [x02])])].

(** Induction on a tree, the entries of a directory included. *)
Section NodeInduction.

Variable P : node -> Prop.
Hypothesis P_file : forall f, P (File f).
Hypothesis P_dir :
  forall w es, Forall (fun e => P (snd e)) es -> P (Dir w es).

Fixpoint node_nested_ind (x : node) : P x :=
  match x with
  | File f => P_file f
  | Dir w es =>
      P_dir w
        ((fix entries_ind (es : list (string * node))
           : Forall (fun e => P (snd e)) es :=
            match es with
            | [] => Forall_nil _
            | e :: es' =>
                @Forall_cons _ (fun e => P (snd e)) e es'
                             (node_nested_ind (snd e)) (entries_ind es')
            end) es)
  end.

End NodeInduction.

Ltac split_ifs :=
  repeat (match goal with
          | |- context [if ?c then _ else _] => destruct c
          end; simpl).

(* ================================================================== *)
(** ** Further vocabulary *)

(** No character of [l] is a dot. *)
Definition no_dot (l : list ascii) : Prop :=
  forallb (fun c => negb (OsPath.is_dot c)) l = true.

(** No name occurs twice. *)
Fixpoint distinct (names : list string) : bool :=
  match names with
  | [] => true
  | a :: rest => negb (Str.mem a rest) && distinct rest
  end.

(** A tree as a file system has it: no directory lists a name twice. *)
Fixpoint names_unique (x : node) : bool :=
  match x with
  | File _ => true
  | Dir _ es =>
      distinct (map fst es)
      && (fix below (es : list (string * node)) : bool :=
            match es with
            | [] => true
            | e :: es' => names_unique (snd e) && below es'
            end) es
  end.

(* ================================================================== *)
(** ** The configuration store of the script *)

Module Text.

Fixpoint ascii_list_eqb (a b : list ascii) : bool :=
  match a, b with
  | [], [] => true
  | x :: a', y :: b' => Ascii.eqb x y && ascii_list_eqb a' b'
  | _, _ => false
  end.

(** [s.endswith(suffix)]. *)
Definition endswith (s suffix : string) : bool :=
  let l := list_ascii_of_string s in
  let k := String.length suffix in
  (k <=? List.length l)%nat
  && ascii_list_eqb (skipn (List.length l - k) l)
                    (list_ascii_of_string suffix).


End Text.



Section ConfigStore.

(** The values JSON can hold, with [json.dump] and [json.load] on them; a
    text that does not parse makes [json.load] raise. *)
Variable value : Type.
Variable json_dump : value -> list byte.
Variable json_load : list byte -> option value.

(** [os.path.dirname(os.path.abspath(__file__))]. *)
Variable script_dir : path.






End ConfigStore.


(* ================================================================== *)
(** ** The interactive set-up of the script *)

Module Prompt.

(** [str.isspace] on the code points below 256. *)
Definition is_space (c : ascii) : bool :=
  let n := nat_of_ascii c in
  ((9 <=? n) && (n <=? 13) || (28 <=? n) && (n <=? 32)
   || (n =? 133) || (n =? 160))%nat.

(** The single and the double quote (code points 39 and 34). *)
Definition is_quote (c : ascii) : bool :=
  Ascii.eqb c (ascii_of_nat 39) || Ascii.eqb c (ascii_of_nat 34).

Fixpoint lstrip_by (drop : ascii -> bool) (l : list ascii) : list ascii :=
  match l with
  | c :: l' => if drop c then lstrip_by drop l' else l
  | [] => []
  end.

Definition strip_by (drop : ascii -> bool) (s : string) : string :=
  string_of_list_ascii
    (rev (lstrip_by drop (rev (lstrip_by drop (list_ascii_of_string s))))).

(** [s.strip()]. *)
Definition strip (s : string) : string := strip_by is_space s.

(** [s.strip(quotes)]: the quotes that drag and drop leaves. *)
Definition strip_quotes (s : string) : string := strip_by is_quote s.

(** [s.split()]: the runs of characters that are not white space; [cur] is
    the run being read, last character first. *)
Fixpoint words (l : list ascii) (cur : list ascii) : list string :=
  match l with
  | [] =>
      match cur with
      | [] => []
      | _ :: _ => [string_of_list_ascii (rev cur)]
      end
  | c :: l' =>
      if is_space c then
        match cur with
        | [] => words l' []
        | _ :: _ => string_of_list_ascii (rev cur) :: words l' []
        end
      else words l' (c :: cur)
  end.

Definition split (s : string) : list string :=
  words (list_ascii_of_string s) [].

Definition is_empty (s : string) : bool :=
  match s with EmptyString => true | String _ _ => false end.

End Prompt.

(** The dictionary [get_manual_config] returns. *)
Record config : Type := mkConfig {
  cfg_input_dir : string;
  cfg_output_dir : string;
  cfg_extensions : option (list string);
  cfg_move_files : bool;
  cfg_conflict_resolution : string
}.

(** How a function that reads the terminal ends: with a value, with the
    [EOFError] of [input] when the lines have run out, or with another
    exception. *)
Inductive prompted (A : Type) : Type :=
| Done (a : A)
| EndOfInput
| Failed (e : exn).

Arguments Done {A} a.
Arguments EndOfInput {A}.
Arguments Failed {A} e.

Section ManualConfig.

(** The path a non-empty path string denotes (relative to the working
    directory of the process). *)
Variable resolve : string -> path.

(** [os.path.exists] and [os.path.isdir] on a string; the empty string
    names nothing. *)
Definition exists_str (t : fs) (s : string) : bool :=
  if Prompt.is_empty s then false else Os.path_exists t (resolve s).

Definition isdir_str (t : fs) (s : string) : bool :=
  if Prompt.is_empty s then false else Os.isdir t (resolve s).

(** [os.makedirs(s, exist_ok=True)] on a string. *)
Definition makedirs_str (t : fs) (s : string) : result fs :=
  if Prompt.is_empty s then Raise FileNotFoundError
  else Os.makedirs t (resolve s).

(** The first loop: lines are read until one names a directory. *)
Fixpoint ask_input_dir (t : fs) (lines : list string)
  : option (string * list string) :=
  match lines with
  | [] => None
  | line :: rest =>
      let input_dir := Prompt.strip_quotes (Prompt.strip line) in
      if exists_str t input_dir && isdir_str t input_dir
      then Some (input_dir, rest)
      else ask_input_dir t rest
  end.

(** The loops [while True: choice = input(...).strip(); if choice in [...]]. *)
Fixpoint ask_choice (allowed : list string) (lines : list string)
  : option (string * list string) :=
  match lines with
  | [] => None
  | line :: rest =>
      let choice := Prompt.strip line in
      if Str.mem choice allowed then Some (choice, rest)
      else ask_choice allowed rest
  end.

Definition default_extensions : list string :=
  ["wav"; "aif"; "aiff"; "mp3"; "flac"; "m4a"].

Definition conflict_options (choice : string) : string :=
  if String.eqb choice "1" then "rename"
  else if String.eqb choice "2" then "skip"
  else "overwrite".

(** [get_manual_config], reading from [lines]; what is left of the lines
    and the file system come back with the configuration. *)
Definition get_manual_config (t : fs) (lines : list string)
  : prompted (config * list string * fs) :=
  match ask_input_dir t lines with
  | None => EndOfInput
  | Some (input_dir, lines) =>
      match lines with
      | [] => EndOfInput
      | line :: lines =>
          let output_dir := Prompt.strip_quotes (Prompt.strip line) in
          match (if negb (exists_str t output_dir)
                 then makedirs_str t output_dir else Ok t) with
          | Raise e => Failed e
          | Ok t =>
              match ask_choice ["1"; "2"] lines with
              | None => EndOfInput
              | Some (choice, lines) =>
                  match (if String.eqb choice "2" then
                           match lines with
                           | [] => None
                           | line :: lines =>
                               let ext_input := Prompt.strip line in
                               if negb (Prompt.is_empty ext_input)
                               then Some (Some (Prompt.split ext_input), lines)
                               else Some (Some default_extensions, lines)
                           end
                         else Some (None, lines)) with
                  | None => EndOfInput
                  | Some (extensions, lines) =>
                      match ask_choice ["1"; "2"] lines with
                      | None => EndOfInput
                      | Some (choice, lines) =>
                          let move_files := String.eqb choice "2" in
                          match ask_choice ["1"; "2"; "3"] lines with
                          | None => EndOfInput
                          | Some (choice, lines) =>
                              Done (mkConfig input_dir output_dir extensions
                                             move_files
                                             (conflict_options choice),
                                    lines, t)
                          end
                      end
                  end
              end
          end
      end
  end.

End ManualConfig.




(** Sample file systems as some runs leave them. *)
Definition fs_same_name_flat : fs :=
  Dir true
    [("src", Dir true [("a", Dir true [("x.wav", sample_file [x01])]);
                       ("b", Dir true [("x.wav", sample_file [x02; x03])])]);
     ("dst", Dir true [("x.wav", sample_file [x01]);
                       ("x_001.wav", sample_file [x02; x03])])].

Definition fs_locked_source_flat : fs :=
  Dir true
    [("src", Dir true [("a", Dir true [("x.wav", locked_file [x01]);
                                       ("y.wav", sample_file [x02])])]);
     ("dst", Dir true [("y.wav", sample_file [x02])])].


Definition fs_two_levels_out : fs :=
  Dir true [("src", tree_two_levels); ("out", Dir true [])].



(* ================================================================== *)
(** ** The drum kit generator, [drumkit_generator.py] *)

Module Kit.

(** [sub in s] on strings. *)
Fixpoint contains (sub s : string) : bool :=
  String.prefix sub s
  || match s with
     | EmptyString => false
     | String _ s' => contains sub s'
     end.

(** Files the scan passes over: resource forks and analysis files. *)
Definition skipped_name (file : string) : bool :=
  String.prefix "._" file || Text.endswith file ".asd".

(** [get_audio_files] *)
Definition get_audio_files (t : fs) (input_dir : path)
           (extensions : list string) : list path :=
  let extensions :=
    map (fun ext => Str.strip_dots (Str.lower ext)) extensions in
  flat_map
    (fun '(root, dirs, files) =>
       flat_map
         (fun file =>
            if skipped_name file then []
            else
              let file_path := OsPath.join root file in
              let file_ext :=
                Str.strip_dots (Str.lower (snd (OsPath.splitext file))) in
              if Str.mem file_ext extensions then [file_path] else [])
         files)
    (os_walk t input_dir).

(** The [patterns] dictionary, in the order it is written. *)
Definition patterns : list (string * list string) :=
  [("kick", ["kick"; "bd"; "bass"; "bassdrum"; "bass drum"; "808"; "sub";
             "boom"]);
   ("snare", ["snare"; "sn"; "snr"; "snap"; "rim"]);
   ("hihat_closed", ["chh"; "closed hat"; "closedhat"; "closedhh";
                     "closed hihat"; "hihat closed"; "hh closed"; "hhc"]);
   ("hihat_open", ["ohh"; "open hat"; "openhat"; "openhh"; "open hihat";
                   "hihat open"; "hh open"; "hho"]);
   ("tom", ["tom"; "tm"; "floor tom"; "floortom"; "hi tom"; "hitom";
            "mid tom"; "midtom"]);
   ("clap", ["clap"; "cp"; "handclap"; "hand clap"]);
   ("shaker", ["shaker"; "shake"; "shk"; "tambourine"; "tamb"]);
   ("crash", ["crash"; "cym"; "cymbal"; "ride"]);
   ("perc", ["perc"; "percussion"; "bongo"; "conga"; "wood"; "block";
             "cowbell"; "bell"; "triangle"])].

(** The [categories] dictionary before the loop. *)
Definition empty_categories : list (string * list path) :=
  [("kick", []); ("snare", []); ("hihat_closed", []); ("hihat_open", []);
   ("tom", []); ("clap", []); ("shaker", []); ("crash", []); ("perc", []);
   ("other", [])].

(** The two inner loops: the first category one of whose keywords occurs
    in [filename]. *)
Fixpoint first_match (pats : list (string * list string)) (filename : string)
  : option string :=
  match pats with
  | [] => None
  | (category, keywords) :: rest =>
      if existsb (fun keyword => contains keyword filename) keywords
      then Some category
      else first_match rest filename
  end.

(** [categories[category].append(file_path)]. *)
Fixpoint append_to (category : string) (file_path : path)
         (categories : list (string * list path)) : list (string * list path) :=
  match categories with
  | [] => []
  | (k, files) :: rest =>
      if String.eqb k category then (k, files ++ [file_path]) :: rest
      else (k, files) :: append_to category file_path rest
  end.

(** The category a file goes to. *)
Definition category_of (file_path : path) : string :=
  let filename := Str.lower (OsPath.basename file_path) in
  match first_match patterns filename with
  | Some category => category
  | None => "other"
  end.

(** [categorize_audio_files] *)
Definition categorize_audio_files (audio_files : list path)
  : list (string * list path) :=
  fold_left (fun categories file_path =>
               append_to (category_of file_path) file_path categories)
            audio_files empty_categories.

End Kit.

(* ================================================================== *)
(** ** Properties *)

(** *** Strings and the counter format *)

Lemma list_ascii_of_string_append (a b : string) :
  list_ascii_of_string (a ++ b)%string
  = list_ascii_of_string a ++ list_ascii_of_string b.
Proof.
  induction a as [|c a IH]; simpl; [reflexivity | now rewrite IH].
Qed.

Lemma list_ascii_of_string_inj (a b : string) :
  list_ascii_of_string a = list_ascii_of_string b -> a = b.
Proof.
  intros H.
  rewrite <- (string_of_list_ascii_of_string a),
          <- (string_of_list_ascii_of_string b).
  now rewrite H.
Qed.

Lemma append_inv_head (s a b : string) :
  (s ++ a = s ++ b)%string -> a = b.
Proof.
  induction s as [|c s IH]; simpl; intros H; [assumption|].
  injection H as H. auto.
Qed.

Lemma append_inv_tail (e a b : string) :
  (a ++ e = b ++ e)%string -> a = b.
Proof.
  intros H. apply list_ascii_of_string_inj.
  apply (f_equal list_ascii_of_string) in H.
  rewrite !list_ascii_of_string_append in H.
  now apply app_inv_tail in H.
Qed.

Lemma uint_of_string_zeros (k : nat) (s : string) (d : Decimal.uint) :
  DecimalString.NilEmpty.uint_of_string s = Some d ->
  exists d',
    DecimalString.NilEmpty.uint_of_string
      (string_of_list_ascii (repeat "0"%char k) ++ s)%string = Some d'
    /\ Nat.of_uint d' = Nat.of_uint d.
Proof.
  intros Hs. induction k as [|k [d' [H1 H2]]]; simpl.
  - exists d. split; [assumption | reflexivity].
  - exists (Decimal.D0 d'). split.
    + unfold DecimalString.NilEmpty.uint_of_string in *.
      simpl. rewrite H1. reflexivity.
    + rewrite <- H2. reflexivity.
Qed.

Lemma parse_format_03d (n : nat) :
  Str.parse_decimal (Str.format_03d n) = Some n.
Proof.
  unfold Str.parse_decimal, Str.format_03d, Str.zero_pad.
  destruct (@uint_of_string_zeros
              (3 - String.length (DecimalString.NilEmpty.string_of_uint (Nat.to_uint n)))
              _ _ (DecimalString.NilEmpty.usu (Nat.to_uint n))) as [d' [H1 H2]].
  rewrite H1. simpl. rewrite H2.
  now rewrite DecimalNat.Unsigned.of_to.
Qed.

Lemma format_03d_inj (a b : nat) :
  Str.format_03d a = Str.format_03d b -> a = b.
Proof.
  intros H. apply (f_equal Str.parse_decimal) in H.
  rewrite !parse_format_03d in H. now injection H.
Qed.

Lemma candidate_inj (dir : path) (name ext : string) (a b : nat) :
  candidate dir name ext a = candidate dir name ext b -> a = b.
Proof.
  unfold candidate, OsPath.join. intros H.
  apply app_inv_head in H. injection H as H.
  apply append_inv_head in H. simpl in H. injection H as H.
  apply append_inv_tail in H. now apply format_03d_inj.
Qed.

(** *** Looking paths up *)

Lemma lookup_app (t : node) (p q : path) :
  Fs.lookup t (p ++ q)
  = match Fs.lookup t p with
    | Some x => Fs.lookup x q
    | None => None
    end.
Proof.
  revert t. induction p as [|c p IH]; intros t; simpl; [reflexivity|].
  destruct t as [f|w es]; [reflexivity|].
  destruct (Fs.child c es); [apply IH | reflexivity].
Qed.

Lemma child_In (name : string) (es : list (string * node)) (x : node) :
  Fs.child name es = Some x -> In name (map fst es).
Proof.
  induction es as [|[n y] es IH]; simpl; [discriminate|].
  destruct (String.eqb_spec name n) as [->|_]; auto.
Qed.

Lemma path_exists_join (t : fs) (dir : path) (name : string) :
  Os.path_exists t (OsPath.join dir name) = true ->
  exists w es, Fs.lookup t dir = Some (Dir w es) /\ In name (map fst es).
Proof.
  unfold Os.path_exists, OsPath.join. rewrite lookup_app.
  destruct (Fs.lookup t dir) as [[f|w es]|]; simpl; try discriminate.
  destruct (Fs.child name es) eqn:E; [|discriminate].
  intros _. exists w, es. split; [reflexivity | eapply child_In; eauto].
Qed.

(** *** The scan of [handle_name_conflict] *)

Lemma scan_names_some (t : fs) (dir : path) (name ext : string) :
  forall fuel c p,
    scan_names fuel t dir name ext c = Some p ->
    exists n,
      c <= n < c + fuel
      /\ p = candidate dir name ext n
      /\ Os.path_exists t p = false
      /\ forall k, c <= k < n ->
                   Os.path_exists t (candidate dir name ext k) = true.
Proof.
  induction fuel as [|fuel IH]; intros c p; simpl; [discriminate|].
  destruct (Os.path_exists t (candidate dir name ext c)) eqn:E; simpl.
  - intros H. destruct (IH _ _ H) as [n [Hn [Hp [Hfree Hbusy]]]].
    exists n. repeat split; try assumption; try lia.
    intros k Hk. destruct (Nat.eq_dec k c) as [->|Hne]; [assumption|].
    apply Hbusy. lia.
  - intros H. injection H as <-. exists c. repeat split; try lia.
    assumption.
Qed.

Lemma scan_names_none (t : fs) (dir : path) (name ext : string) :
  forall fuel c,
    scan_names fuel t dir name ext c = None ->
    forall k, c <= k < c + fuel ->
              Os.path_exists t (candidate dir name ext k) = true.
Proof.
  induction fuel as [|fuel IH]; intros c; simpl; [intros _ k Hk; lia|].
  destruct (Os.path_exists t (candidate dir name ext c)) eqn:E; simpl;
    [|discriminate].
  intros H k Hk. destruct (Nat.eq_dec k c) as [->|Hne]; [assumption|].
  apply (IH _ H). lia.
Qed.

(** What the bounded scan finds is what the loop returns. *)
Lemma scan_names_returns (t : fs) (dir : path) (name ext : string) :
  forall fuel c p,
    scan_names fuel t dir name ext c = Some p ->
    scan_returns t dir name ext c p.
Proof.
  induction fuel as [|fuel IH]; intros c p; simpl; [discriminate|].
  destruct (Os.path_exists t (candidate dir name ext c)) eqn:E; simpl.
  - intros H. apply ScanTaken; [assumption | now apply IH].
  - intros H. injection H as <-. now apply ScanFree.
Qed.

(** The loop returns one path at most. *)
Lemma scan_returns_unique (t : fs) (dir : path) (name ext : string) :
  forall c p, scan_returns t dir name ext c p ->
  forall q, scan_returns t dir name ext c q -> p = q.
Proof.
  induction 1 as [c Hfree | c p Htaken _ IH]; intros q Hq;
    inversion Hq; subst; try congruence.
  now apply IH.
Qed.

(** More fuel does not change an answer already found. *)
Lemma scan_names_more_fuel (t : fs) (dir : path) (name ext : string) :
  forall fuel c p extra,
    scan_names fuel t dir name ext c = Some p ->
    scan_names (fuel + extra) t dir name ext c = Some p.
Proof.
  induction fuel as [|fuel IH]; intros c p extra; simpl; [discriminate|].
  destruct (Os.path_exists t (candidate dir name ext c)); simpl; auto.
Qed.

Lemma candidates_NoDup (dir : path) (name ext : string) (c n : nat) :
  NoDup (map (fun k => (name ++ "_" ++ Str.format_03d k ++ ext)%string)
             (seq c n)).
Proof.
  revert c. induction n as [|n IH]; intros c; cbn [map seq]; constructor;
    [|apply IH].
  rewrite in_map_iff. intros [k [Hk Hin]]. apply in_seq in Hin.
  assert (candidate dir name ext k = candidate dir name ext c) as H
      by (unfold candidate; cbv zeta; cbv beta in Hk; now rewrite Hk).
  apply candidate_inj in H. lia.
Qed.

(** The pigeonhole step: a directory with [n] entries cannot hold the
    [n + 1] names the scan tries first. *)
Lemma scan_names_bound (t : fs) (dir : path) (name ext : string) :
  exists p, scan_names (scan_bound t dir) t dir name ext 1 = Some p.
Proof.
  destruct (scan_names (scan_bound t dir) t dir name ext 1) as [p|] eqn:E;
    [now exists p|].
  exfalso. pose proof (@scan_names_none _ _ _ _ _ _ E) as Hall.
  unfold scan_bound in Hall.
  assert (exists w es, Fs.lookup t dir = Some (Dir w es)) as [w [es Hdir]].
  { destruct (@path_exists_join t dir _ (Hall 1 ltac:(destruct (Fs.lookup t dir) as [[|]|]; lia)))
      as [w [es [H _]]].
    now exists w, es. }
  rewrite Hdir in Hall.
  pose proof (candidates_NoDup dir name ext 1 (S (List.length es))) as Hnd.
  apply NoDup_incl_length with (l' := map fst es) in Hnd.
  - rewrite !length_map, length_seq in Hnd. lia.
  - intros x Hx. apply in_map_iff in Hx as [k [<- Hk]]. apply in_seq in Hk.
    destruct (@path_exists_join t dir _ (Hall k ltac:(lia))) as [w' [es' [H Hin]]].
    rewrite Hdir in H. injection H as <- <-. exact Hin.
Qed.

Lemma handle_name_conflict_returns (t : fs) (dest_path : path) :
  exists p, handle_name_conflict t dest_path = Some p.
Proof.
  unfold handle_name_conflict.
  destruct (Os.path_exists t dest_path); simpl; [|now eexists].
  destruct (OsPath.splitext (OsPath.basename dest_path)) as [name ext].
  apply scan_names_bound.
Qed.

(** *** The loop of [flatten_folder] *)

Section LoopProperties.

Variable sha256_hexdigest : list byte -> string.
Variables (output_dir : path) (move_files : bool).

Local Abbreviation step := (flatten_step sha256_hexdigest output_dir move_files).
Local Abbreviation loop := (flatten_loop sha256_hexdigest output_dir move_files).

Lemma conflict_resolution_branch_id (cr : string) (r : results) :
  conflict_resolution_branch cr r = r.
Proof.
  unfold conflict_resolution_branch.
  destruct (String.eqb cr "skip"), (String.eqb cr "overwrite"); reflexivity.
Qed.

Lemma place_cases (t : fs) (r : results) (s d : path) :
  (exists t', transfer move_files t s d = (t', Ok tt)
              /\ place move_files t r s d = (t', incr_processed r))
  \/ (exists t' e, transfer move_files t s d = (t', Raise e)
                   /\ place move_files t r s d = (t', record_error r s)).
Proof.
  unfold place.
  destruct (transfer move_files t s d) as [t' [[]|e]]; [left | right]; eauto.
Qed.

Lemma flatten_step_kind (cr : string) (t : fs) (r : results) (s : path) :
  exists st', step cr (t, r) s = Some st' /\ step_kind move_files t r s st'.
Proof.
  unfold flatten_step.
  destruct (Os.path_exists t (OsPath.join output_dir (OsPath.basename s))).
  - destruct (files_are_identical _ t s _).
    + eexists; split; [reflexivity | constructor].
    + destruct (handle_name_conflict_returns
                  t (OsPath.join output_dir (OsPath.basename s))) as [d ->].
      eexists; split; [reflexivity|].
      destruct (place_cases t (incr_conflicts r) s d)
        as [[t' [Ht ->]] | [t' [e [Ht ->]]]].
      * exact (@StepPlaced move_files t r s true d t' Ht).
      * exact (@StepFailed move_files t r s true d t' e Ht).
  - rewrite conflict_resolution_branch_id.
    eexists; split; [reflexivity|].
    destruct (place_cases t r s (OsPath.join output_dir (OsPath.basename s)))
      as [[t' [Ht ->]] | [t' [e [Ht ->]]]].
    * exact (@StepPlaced move_files t r s false _ t' Ht).
    * exact (@StepFailed move_files t r s false _ t' e Ht).
Qed.

Lemma flatten_step_returns (cr : string) (st : fs * results) (s : path) :
  exists st', step cr st s = Some st'.
Proof.
  destruct st as [t r].
  destruct (flatten_step_kind cr t r s) as [st' [H _]]. eauto.
Qed.

Lemma flatten_loop_returns (cr : string) (all_files : list path) :
  forall st, exists st', loop cr all_files st = Some st'.
Proof.
  induction all_files as [|s rest IH]; intros st; cbn [flatten_loop];
    [eauto|].
  destruct (flatten_step_returns cr st s) as [st' ->]. apply IH.
Qed.

Lemma flatten_loop_app (cr : string) (l1 l2 : list path) :
  forall st,
    loop cr (l1 ++ l2) st
    = match loop cr l1 st with
      | Some st' => loop cr l2 st'
      | None => None
      end.
Proof.
  induction l1 as [|s l1 IH]; intros st; cbn [flatten_loop app];
    [reflexivity|].
  destruct (step cr st s); [apply IH | reflexivity].
Qed.

(** Every iteration counts its file once, as processed, skipped or
    failed. *)
Lemma flatten_step_counts (cr : string) (t t' : fs) (r r' : results)
      (s : path) :
  step cr (t, r) s = Some (t', r') ->
  processed r' + skipped r' + errors r'
  = S (processed r + skipped r + errors r).
Proof.
  intros H. destruct (flatten_step_kind cr t r s) as [st' [H' K]].
  rewrite H in H'. injection H' as E. subst st'.
  inversion K; subst; try destruct conflict; simpl; lia.
Qed.

Lemma flatten_loop_counts (cr : string) (all_files : list path) :
  forall t r t' r',
    loop cr all_files (t, r) = Some (t', r') ->
    processed r' + skipped r' + errors r'
    = processed r + skipped r + errors r + List.length all_files.
Proof.
  induction all_files as [|s rest IH]; intros t r t' r'; cbn [flatten_loop].
  - intros H. injection H as <- <-. simpl. lia.
  - destruct (step cr (t, r) s) as [[t1 r1]|] eqn:E; [|discriminate].
    intros H. apply IH in H. apply flatten_step_counts in E.
    cbn [List.length]. lia.
Qed.

Lemma flatten_step_conflict_resolution (cr1 cr2 : string)
      (st : fs * results) (s : path) :
  step cr1 st s = step cr2 st s.
Proof.
  unfold flatten_step. destruct st as [t r].
  now rewrite !conflict_resolution_branch_id.
Qed.

Lemma flatten_loop_conflict_resolution (cr1 cr2 : string)
      (all_files : list path) :
  forall st, loop cr1 all_files st = loop cr2 all_files st.
Proof.
  induction all_files as [|s rest IH]; intros st; cbn [flatten_loop];
    [reflexivity|].
  rewrite (flatten_step_conflict_resolution cr1 cr2).
  destruct (step cr2 st s); [apply IH | reflexivity].
Qed.

End LoopProperties.

(** *** Directory listings *)

Lemma node_kept_refl (x : node) : node_kept x x.
Proof. destruct x; simpl; auto. Qed.

Lemma child_set_child (c c' : string) (x : node) (es : list (string * node)) :
  Fs.child c' (Fs.set_child c x es)
  = if String.eqb c' c then Some x else Fs.child c' es.
Proof.
  induction es as [|[n y] es IH]; simpl.
  - destruct (String.eqb c' c); reflexivity.
  - destruct (String.eqb_spec c n) as [->|Hcn]; simpl.
    + destruct (String.eqb c' n); reflexivity.
    + rewrite IH. destruct (String.eqb_spec c' n) as [->|Hn].
      * destruct (String.eqb_spec n c); [congruence | reflexivity].
      * reflexivity.
Qed.

Lemma set_child_same (c : string) (x : node) (es : list (string * node)) :
  Fs.child c es = Some x -> Fs.set_child c x es = es.
Proof.
  induction es as [|[n y] es IH]; simpl; [discriminate|].
  destruct (String.eqb c n).
  - intros H. now injection H as ->.
  - intros H. now rewrite IH.
Qed.

(** *** Storing a node under a free name *)

Lemma put_lookup (x : node) :
  forall (d : path) (t t' : node),
    Fs.put t d x = Some t' -> Fs.lookup t' d = Some x.
Proof.
  induction d as [|c d IH]; intros t t'; simpl.
  - intros H. now injection H as ->.
  - destruct t as [f|w es]; [discriminate|].
    destruct d as [|c2 d].
    + intros H. injection H as <-. simpl.
      now rewrite child_set_child, String.eqb_refl.
    + destruct (Fs.child c es) as [sub|]; [|discriminate].
      destruct (Fs.put sub (c2 :: d) x) as [sub'|] eqn:E; [|discriminate].
      intros H. injection H as <-.
      cbn [Fs.lookup]. rewrite child_set_child, String.eqb_refl.
      now apply IH with (t := sub).
Qed.

Lemma put_fresh_kept (x : node) :
  forall (d : path) (t t' : node),
    Fs.put t d x = Some t' ->
    Fs.lookup t d = None ->
    forall (q : path) (n : node),
      Fs.lookup t q = Some n ->
      exists n', Fs.lookup t' q = Some n' /\ node_kept n n'.
Proof.
  induction d as [|c d IH]; intros t t'; [simpl; discriminate|].
  cbn [Fs.put Fs.lookup].
  destruct t as [f|w es]; [discriminate|].
  destruct d as [|c2 d].
  - intros H Hfree. injection H as <-.
    destruct (Fs.child c es) as [sub|] eqn:Ec; [discriminate|].
    intros [|c' q] n; cbn [Fs.lookup].
    + intros H. injection H as <-. eexists; split; [reflexivity | exact I].
    + rewrite child_set_child.
      destruct (String.eqb_spec c' c) as [->|Hne].
      * rewrite Ec. discriminate.
      * destruct (Fs.child c' es) as [y|]; [|discriminate].
        intros H. exists n. split; [assumption | apply node_kept_refl].
  - destruct (Fs.child c es) as [sub|] eqn:Ec; [|discriminate].
    destruct (Fs.put sub (c2 :: d) x) as [sub'|] eqn:E; [|discriminate].
    intros H Hfree. injection H as <-.
    intros [|c' q] n; cbn [Fs.lookup].
    + intros H. injection H as <-. eexists; split; [reflexivity | exact I].
    + rewrite child_set_child.
      destruct (String.eqb_spec c' c) as [->|Hne].
      * rewrite Ec. now apply IH.
      * destruct (Fs.child c' es) as [y|]; [|discriminate].
        intros H. exists n. split; [assumption | apply node_kept_refl].
Qed.

Lemma fs_grows_refl (t : fs) : fs_grows t t.
Proof. intros q n H. exists n. split; [assumption | apply node_kept_refl]. Qed.

Lemma fs_grows_trans (t1 t2 t3 : fs) :
  fs_grows t1 t2 -> fs_grows t2 t3 -> fs_grows t1 t3.
Proof.
  intros H12 H23 q n H.
  destruct (H12 q n H) as [n2 [H2 K2]].
  destruct (H23 q n2 H2) as [n3 [H3 K3]].
  exists n3. split; [assumption|].
  destruct n as [f|w es]; simpl in *.
  - subst n2. exact K3.
  - destruct n2; [contradiction | exact K3].
Qed.

Lemma fs_grows_file (t t' : fs) (q : path) (f : file) :
  fs_grows t t' -> Fs.lookup t q = Some (File f) ->
  Fs.lookup t' q = Some (File f).
Proof.
  intros G H. destruct (G q _ H) as [n' [H' K]]. simpl in K. now subst.
Qed.

Lemma fs_grows_isdir (t t' : fs) (q : path) :
  fs_grows t t' -> Os.isdir t q = true -> Os.isdir t' q = true.
Proof.
  unfold Os.isdir. intros G H.
  destruct (Fs.lookup t q) as [[f|w es]|] eqn:E; try discriminate.
  destruct (G q _ E) as [n' [-> K]]. destruct n'; [contradiction | reflexivity].
Qed.

(** *** [os.makedirs] *)

Lemma makedirs_from_dir :
  forall (p : path) (t t' : node),
    Os.makedirs_from t p = Ok t' -> is_dir t /\ is_dir t'.
Proof.
  intros [|c p] [f|w es] t'; simpl; try discriminate.
  - intros H. injection H as <-. split; exact I.
  - destruct (Fs.child c es) as [sub|].
    + destruct (Os.makedirs_from sub p); simpl; [|discriminate].
      intros H. injection H as <-. split; exact I.
    + destruct w; [|discriminate].
      destruct (Os.makedirs_from (Dir true []) p); simpl; [|discriminate].
      intros H. injection H as <-. split; exact I.
Qed.

Lemma makedirs_isdir :
  forall (p : path) (t t' : node),
    Os.makedirs_from t p = Ok t' -> Os.isdir t' p = true.
Proof.
  unfold Os.isdir.
  induction p as [|c p IH]; intros t t' H.
  - apply makedirs_from_dir in H. destruct t'; simpl in *; tauto.
  - cbn [Os.makedirs_from] in H. destruct t as [f|w es]; [discriminate|].
    destruct (Fs.child c es) as [sub|].
    + destruct (Os.makedirs_from sub p) as [sub'|] eqn:E; [|discriminate].
      simpl in H. injection H as <-. cbn [Fs.lookup].
      rewrite child_set_child, String.eqb_refl. now apply IH with (t := sub).
    + destruct w; [|discriminate].
      destruct (Os.makedirs_from (Dir true []) p) as [sub'|] eqn:E;
        [|discriminate].
      simpl in H. injection H as <-. cbn [Fs.lookup].
      rewrite child_set_child, String.eqb_refl.
      now apply IH with (t := Dir true []).
Qed.

(** [exist_ok=True]: an existing directory is left as it is. *)
Lemma makedirs_existing :
  forall (p : path) (t : node),
    Os.isdir t p = true -> Os.makedirs_from t p = Ok t.
Proof.
  unfold Os.isdir.
  induction p as [|c p IH]; intros t; simpl.
  - destruct t; [discriminate | reflexivity].
  - destruct t as [f|w es]; [discriminate|].
    destruct (Fs.child c es) as [sub|] eqn:Ec; [|discriminate].
    intros H. rewrite (IH _ H). simpl. now rewrite set_child_same.
Qed.

(** *** Reading in chunks *)

Lemma read_chunks_concat (n : nat) :
  0 < n ->
  forall (fuel : nat) (data acc : list byte),
    List.length data <= fuel ->
    fold_left hash_update (read_chunks fuel n data) acc = acc ++ data.
Proof.
  intros Hn. induction fuel as [|fuel IH]; intros data acc Hlen.
  - destruct data; [simpl; now rewrite app_nil_r | simpl in Hlen; lia].
  - destruct data as [|b data]; [simpl; now rewrite app_nil_r|].
    cbn [read_chunks fold_left]. unfold hash_update at 2.
    rewrite IH.
    + now rewrite <- app_assoc, firstn_skipn.
    + rewrite length_skipn. cbn [List.length] in *. lia.
Qed.

Section Comparison.

Variable sha256_hexdigest : list byte -> string.

(** The chunked digest is the digest of the whole content. *)
Lemma get_file_hash_whole (t : fs) (p : path) :
  get_file_hash sha256_hexdigest t p
  = (data <- Os.open_rb t p ;; Ok (sha256_hexdigest data)).
Proof.
  unfold get_file_hash. destruct (Os.open_rb t p) as [data|e]; simpl;
    [|reflexivity].
  rewrite read_chunks_concat; [reflexivity | lia | lia].
Qed.

Lemma files_are_identical_true (t : fs) (a b : path) :
  files_are_identical sha256_hexdigest t a b = true <-> identical_files sha256_hexdigest t a b.
Proof.
  unfold files_are_identical, compare_files, identical_files.
  rewrite !get_file_hash_whole. unfold Os.getsize, Os.open_rb.
  split.
  - destruct (Fs.lookup t a) as [[fa|wa ea]|]; simpl; try discriminate;
      destruct (Fs.lookup t b) as [[fb|wb eb]|]; simpl; try discriminate.
    + destruct (Nat.eqb_spec (List.length (content fa))
                             (List.length (content fb))) as [El|];
        simpl; [|discriminate].
      destruct (readable fa) eqn:Ra; simpl; [|discriminate].
      destruct (readable fb) eqn:Rb; simpl; [|discriminate].
      intros H. apply String.eqb_eq in H.
      exists fa, fb. repeat split; assumption.
    + split_ifs; discriminate.
    + split_ifs; discriminate.
  - intros [fa [fb [-> [-> [Ra [Rb [El Eh]]]]]]]. simpl.
    rewrite El, Nat.eqb_refl, Ra, Rb. simpl.
    now apply String.eqb_eq.
Qed.

Lemma identical_files_grows (t t' : fs) (a b : path) :
  fs_grows t t' -> identical_files sha256_hexdigest t a b -> identical_files sha256_hexdigest t' a b.
Proof.
  intros G [fa [fb [Ha [Hb H]]]]. exists fa, fb.
  split; [|split]; try assumption; eapply fs_grows_file; eauto.
Qed.

Lemma identical_files_exists (t : fs) (a b : path) :
  identical_files sha256_hexdigest t a b -> Os.path_exists t b = true.
Proof.
  intros [fa [fb [_ [Hb _]]]]. unfold Os.path_exists. now rewrite Hb.
Qed.

(** Sizes that differ settle the comparison before any content is read. *)
Lemma compare_files_sizes_differ (t : fs) (a b : path) (na nb : nat) :
  Os.getsize t a = Ok na -> Os.getsize t b = Ok nb -> na <> nb ->
  compare_files sha256_hexdigest t a b = Ok false.
Proof.
  intros Ha Hb Hne. unfold compare_files. rewrite Ha, Hb. simpl.
  destruct (Nat.eqb_spec na nb); [contradiction | reflexivity].
Qed.

Lemma compare_files_same_size (t : fs) (a b : path) (fa fb : file) :
  Fs.lookup t a = Some (File fa) -> Fs.lookup t b = Some (File fb) ->
  readable fa = true -> readable fb = true ->
  List.length (content fa) = List.length (content fb) ->
  compare_files sha256_hexdigest t a b
  = Ok (String.eqb (sha256_hexdigest (content fa))
                   (sha256_hexdigest (content fb))).
Proof.
  intros Ha Hb Ra Rb El. unfold compare_files.
  rewrite !get_file_hash_whole. unfold Os.getsize, Os.open_rb.
  rewrite Ha, Hb. simpl. rewrite El, Nat.eqb_refl, Ra, Rb. reflexivity.
Qed.

Lemma files_are_identical_empty (t : fs) (a b : path) (fa fb : file) :
  Fs.lookup t a = Some (File fa) -> Fs.lookup t b = Some (File fb) ->
  readable fa = true -> readable fb = true ->
  content fa = [] -> content fb = [] ->
  files_are_identical sha256_hexdigest t a b = true.
Proof.
  intros Ha Hb Ra Rb Ca Cb. apply files_are_identical_true.
  exists fa, fb. rewrite Ca, Cb. repeat split; assumption.
Qed.

End Comparison.

(** *** [shutil.copy2] onto a free name *)

Lemma copy2_fresh (t t' : fs) (s d : path) :
  Os.path_exists t d = false ->
  Shutil.copy2 t s d = Ok t' ->
  exists f,
    Fs.lookup t s = Some (File f) /\ readable f = true
    /\ Fs.put t d (File f) = Some t'.
Proof.
  unfold Os.path_exists, Shutil.copy2, Os.isdir, Shutil.write_file.
  destruct (Fs.lookup t d) eqn:Ed; [discriminate|]. intros _.
  destruct (path_eqb s d && Os.path_exists t s); [discriminate|].
  destruct (Fs.lookup t s) as [[f|w es]|]; try discriminate.
  destruct (readable f) eqn:R; [|discriminate].
  rewrite Ed.
  destruct (Fs.check_dir_writable t (OsPath.dirname d)); simpl;
    [|discriminate].
  destruct (Fs.put t d (File f)) as [t2|] eqn:Ep; [|discriminate].
  intros H. injection H as <-. exists f. auto.
Qed.

Lemma copy2_fresh_grows (t t' : fs) (s d : path) :
  Os.path_exists t d = false ->
  Shutil.copy2 t s d = Ok t' ->
  fs_grows t t'
  /\ exists f, Fs.lookup t' s = Some (File f) /\ Fs.lookup t' d = Some (File f)
               /\ readable f = true.
Proof.
  intros Hfree Hc.
  destruct (@copy2_fresh _ _ _ _ Hfree Hc) as [f [Hs [R Hp]]].
  assert (Fs.lookup t d = None) as Hd.
  { unfold Os.path_exists in Hfree. now destruct (Fs.lookup t d). }
  assert (fs_grows t t') as G
      by (intros q n Hq; eapply put_fresh_kept; eauto).
  split; [exact G|]. exists f. repeat split.
  - eapply fs_grows_file; eauto.
  - eapply put_lookup; eauto.
  - exact R.
Qed.

(** *** Discovery follows the walk *)

Lemma files_in_order_dir (extensions : option (list string)) (top : path)
      (w : bool) (es : list (string * node)) :
  files_in_order extensions top (Dir w es)
  = own_files extensions top es ++ files_below extensions top es.
Proof.
  cbn [files_in_order]. unfold own_files, files_below. f_equal.
  induction es as [|[name sub] es IH]; [reflexivity|].
  cbn [flat_map fst snd]. now rewrite IH.
Qed.

Lemma collect_app (extensions : option (list string))
      (l1 l2 : list (path * list string * list string)) :
  collect extensions (l1 ++ l2)
  = collect extensions l1 ++ collect extensions l2.
Proof. unfold collect. apply flat_map_app. Qed.

Lemma walk_dir (top : path) (w : bool) (es : list (string * node)) :
  walk top (Dir w es)
  = (top,
     flat_map (fun e => match snd e with Dir _ _ => [fst e] | File _ => [] end) es,
     flat_map (fun e => match snd e with File _ => [fst e] | Dir _ _ => [] end) es)
    :: flat_map (fun e => walk (OsPath.join top (fst e)) (snd e)) es.
Proof.
  cbn [walk]. f_equal.
  induction es as [|[name sub] es IH]; [reflexivity|].
  cbn [flat_map fst snd]. now rewrite IH.
Qed.

Lemma collect_walk (extensions : option (list string)) (x : node) :
  forall top, collect extensions (walk top x) = files_in_order extensions top x.
Proof.
  induction x as [f|w es IH] using node_nested_ind; intros top;
    [reflexivity|].
  rewrite walk_dir, files_in_order_dir.
  change (?a :: ?l) with ([a] ++ l). rewrite collect_app. f_equal.
  - unfold collect, own_files. cbn [flat_map]. rewrite app_nil_r.
    induction es as [|[name [f|w' es']] es IHes]; cbn [flat_map fst snd app];
      try reflexivity.
    + inversion IH; subst.
      rewrite (IHes H2).
      destruct (extension_matches extensions name); reflexivity.
    + inversion IH; subst. apply (IHes H2).
  - unfold files_below.
    induction IH as [|[name sub] es Hsub _ IHes]; [reflexivity|].
    cbn [flat_map fst snd]. rewrite collect_app, IHes. f_equal.
    apply Hsub.
Qed.

Lemma get_all_files_in_order (t : fs) (input_dir : path)
      (extensions : option (list string)) :
  get_all_files t input_dir extensions
  = match Fs.lookup t input_dir with
    | Some x => files_in_order (normalize_extensions extensions) input_dir x
    | None => []
    end.
Proof.
  unfold get_all_files, os_walk.
  destruct (Fs.lookup t input_dir) as [x|]; [|reflexivity].
  apply (collect_walk (normalize_extensions extensions) x input_dir).
Qed.

(** *** Creating directories adds no file to any walk *)

Lemma set_child_files (extensions : option (list string)) (c : string)
      (y' : node) (es : list (string * node)) :
  is_dir y' ->
  match Fs.child c es with Some y => is_dir y | None => True end ->
  (forall top, files_in_order extensions top y'
               = files_at extensions top (Fs.child c es)) ->
  forall top,
    own_files extensions top (Fs.set_child c y' es) = own_files extensions top es
    /\ files_below extensions top (Fs.set_child c y' es)
       = files_below extensions top es.
Proof.
  intros Hy'. unfold own_files, files_below.
  induction es as [|[n y] es IH]; cbn [Fs.child Fs.set_child]; intros Hy Heq top.
  - cbn [flat_map fst snd]. rewrite Heq. simpl.
    destruct y'; [contradiction | auto].
  - destruct (String.eqb_spec c n) as [->|Hne].
    + cbn [flat_map fst snd]. rewrite Heq. simpl.
      destruct y; [contradiction|]. destruct y'; [contradiction | auto].
    + cbn [flat_map fst snd].
      destruct (IH Hy Heq top) as [-> ->]. auto.
Qed.

Lemma makedirs_files_in_order (extensions : option (list string)) :
  forall (p : path) (x x' : node),
    Os.makedirs_from x p = Ok x' ->
    forall top,
      files_in_order extensions top x' = files_in_order extensions top x.
Proof.
  induction p as [|c p IH]; intros x x' H top.
  - simpl in H. destruct x; [discriminate|]. now injection H as <-.
  - cbn [Os.makedirs_from] in H. destruct x as [f|w es]; [discriminate|].
    destruct (Fs.child c es) as [sub|] eqn:Ec.
    + destruct (Os.makedirs_from sub p) as [sub'|] eqn:E; [|discriminate].
      simpl in H. injection H as <-.
      rewrite !files_in_order_dir.
      destruct (makedirs_from_dir _ _ E) as [Hsub Hsub'].
      destruct (@set_child_files extensions c sub' es Hsub') with (top := top)
        as [-> ->]; try reflexivity.
      * now rewrite Ec.
      * intros top'. rewrite Ec. simpl. now apply IH.
    + destruct w; [|discriminate].
      destruct (Os.makedirs_from (Dir true []) p) as [sub'|] eqn:E;
        [|discriminate].
      simpl in H. injection H as <-.
      rewrite !files_in_order_dir.
      destruct (makedirs_from_dir _ _ E) as [_ Hsub'].
      destruct (@set_child_files extensions c sub' es Hsub') with (top := top)
        as [-> ->]; try reflexivity.
      * now rewrite Ec.
      * intros top'. rewrite Ec. simpl. now rewrite (IH _ _ E).
Qed.

Lemma makedirs_files_at (extensions : option (list string)) :
  forall (p : path) (x x' : node),
    Os.makedirs_from x p = Ok x' ->
    forall q top,
      files_at extensions top (Fs.lookup x' q)
      = files_at extensions top (Fs.lookup x q).
Proof.
  induction p as [|c p IH]; intros x x' H q top.
  - simpl in H. destruct x; [discriminate|]. now injection H as <-.
  - destruct q as [|c' q].
    + simpl. now apply makedirs_files_in_order with (p := c :: p).
    + cbn [Os.makedirs_from] in H. destruct x as [f|w es]; [discriminate|].
      destruct (Fs.child c es) as [sub|] eqn:Ec.
      * destruct (Os.makedirs_from sub p) as [sub'|] eqn:E; [|discriminate].
        simpl in H. injection H as <-. cbn [Fs.lookup].
        rewrite child_set_child.
        destruct (String.eqb_spec c' c) as [->|Hne]; [|reflexivity].
        rewrite Ec. now apply IH.
      * destruct w; [|discriminate].
        destruct (Os.makedirs_from (Dir true []) p) as [sub'|] eqn:E;
          [|discriminate].
        simpl in H. injection H as <-. cbn [Fs.lookup].
        rewrite child_set_child.
        destruct (String.eqb_spec c' c) as [->|Hne]; [|reflexivity].
        rewrite Ec, (IH _ _ E). destruct q; reflexivity.
Qed.

(** Discovery sees the same files before and after [os.makedirs]. *)
Lemma get_all_files_makedirs (t t1 : fs) (output_dir input_dir : path)
      (extensions : option (list string)) :
  Os.makedirs t output_dir = Ok t1 ->
  get_all_files t1 input_dir extensions = get_all_files t input_dir extensions.
Proof.
  intros H. rewrite !get_all_files_in_order.
  apply (@makedirs_files_at (normalize_extensions extensions) _ _ _ H
                            input_dir input_dir).
Qed.

(** *** A run that neither renames nor fails, and the run after it *)

Section Rerun.

Variable sha256_hexdigest : list byte -> string.
Variables (output_dir : path) (conflict_resolution : string).

Local Abbreviation desired s :=
  (OsPath.join output_dir (OsPath.basename s)).

Lemma flatten_step_monotone (mv : bool) (t t' : fs) (r r' : results)
      (s : path) :
  flatten_step sha256_hexdigest output_dir mv conflict_resolution (t, r) s
  = Some (t', r') ->
  errors r <= errors r'
  /\ skipped r' + conflicts r <= conflicts r' + skipped r.
Proof.
  intros H.
  destruct (flatten_step_kind sha256_hexdigest output_dir mv
                              conflict_resolution t r s) as [st' [H' K]].
  rewrite H in H'. injection H' as E. subst st'.
  inversion K; subst; try destruct conflict; simpl; lia.
Qed.

Lemma flatten_loop_monotone (mv : bool) (all_files : list path) :
  forall t r t' r',
    flatten_loop sha256_hexdigest output_dir mv conflict_resolution
                 all_files (t, r) = Some (t', r') ->
    errors r <= errors r'
    /\ skipped r' + conflicts r <= conflicts r' + skipped r.
Proof.
  induction all_files as [|s rest IH]; intros t r t' r'; cbn [flatten_loop].
  - intros H. injection H as <- <-. lia.
  - destruct (flatten_step _ _ _ _ (t, r) s) as [[t1 r1]|] eqn:E;
      [|discriminate].
    intros H. apply IH in H. apply flatten_step_monotone in E. lia.
Qed.

(** In copy mode, an iteration that renames nothing and records no error
    leaves the file identical to the one under its own name. *)
Lemma flatten_step_clean (t t' : fs) (r r' : results) (s : path) :
  flatten_step sha256_hexdigest output_dir false conflict_resolution (t, r) s
  = Some (t', r') ->
  errors r' = errors r ->
  skipped r' + conflicts r = conflicts r' + skipped r ->
  fs_grows t t' /\ identical_files sha256_hexdigest t' s (desired s).
Proof.
  unfold flatten_step.
  destruct (Os.path_exists t (desired s)) eqn:Ex.
  - destruct (files_are_identical sha256_hexdigest t s (desired s)) eqn:Ei.
    + intros H _ _. injection H as <- <-.
      split; [apply fs_grows_refl | now apply files_are_identical_true].
    + destruct (handle_name_conflict t (desired s)) as [d|]; [|discriminate].
      destruct (place_cases false t (incr_conflicts r) s d)
        as [[t2 [_ ->]] | [t2 [e [_ ->]]]];
        intros H He Hc; injection H as <- <-; simpl in *; lia.
  - rewrite conflict_resolution_branch_id.
    destruct (place_cases false t r s (desired s))
      as [[t2 [Ht ->]] | [t2 [e [_ ->]]]];
      intros H He Hc; injection H as <- <-; [|simpl in *; lia].
    unfold transfer in Ht.
    destruct (Shutil.copy2 t s (desired s)) as [t3|] eqn:Ec; [|discriminate].
    injection Ht as ->.
    destruct (@copy2_fresh_grows _ _ _ _ Ex Ec) as [G [f [Hs [Hd R]]]].
    split; [exact G|]. exists f, f. repeat split; assumption.
Qed.

Lemma flatten_loop_clean (all_files : list path) :
  forall t r t' r',
    flatten_loop sha256_hexdigest output_dir false conflict_resolution
                 all_files (t, r) = Some (t', r') ->
    errors r' = errors r ->
    skipped r' + conflicts r = conflicts r' + skipped r ->
    fs_grows t t'
    /\ forall s, In s all_files ->
                 identical_files sha256_hexdigest t' s (desired s).
Proof.
  induction all_files as [|s rest IH]; intros t r t' r'; cbn [flatten_loop].
  - intros H _ _. injection H as <- <-.
    split; [apply fs_grows_refl | intros s []].
  - destruct (flatten_step _ _ _ _ (t, r) s) as [[t1 r1]|] eqn:E;
      [|discriminate].
    intros H He Hc.
    pose proof (flatten_step_monotone _ _ _ _ E) as [M1 M2].
    pose proof (flatten_loop_monotone _ _ _ _ H) as [M3 M4].
    destruct (flatten_step_clean _ _ _ E) as [G1 I1]; try lia.
    destruct (IH _ _ _ _ H) as [G2 I2]; try lia.
    split; [eapply fs_grows_trans; eauto|].
    intros s' [<-|Hin]; [|now apply I2].
    eapply identical_files_grows; eauto.
Qed.

(** When every file already has its twin, the loop only skips. *)
Lemma flatten_loop_all_identical (mv : bool) (t : fs)
      (all_files : list path) :
  (forall s, In s all_files ->
             identical_files sha256_hexdigest t s (desired s)) ->
  forall r,
    flatten_loop sha256_hexdigest output_dir mv conflict_resolution
                 all_files (t, r)
    = Some (t, mkResults (processed r)
                         (skipped r + List.length all_files)
                         (conflicts r + List.length all_files)
                         (errors r) (error_files r)).
Proof.
  induction all_files as [|s rest IH]; intros Hall r; cbn [flatten_loop].
  - cbn [List.length]. rewrite !Nat.add_0_r. now destruct r.
  - assert (identical_files sha256_hexdigest t s (desired s)) as Hs
        by (apply Hall; now left).
    unfold flatten_step.
    rewrite (identical_files_exists Hs).
    apply files_are_identical_true in Hs. rewrite Hs.
    rewrite IH by (intros s' Hin; apply Hall; now right).
    cbn [List.length incr_skipped incr_conflicts processed skipped
         conflicts errors error_files].
    do 2 f_equal. f_equal; lia.
Qed.

End Rerun.

(* ================================================================== *)
(** ** The claims *)

Lemma zero_pad_length (width : nat) (s : string) :
  width <= String.length (Str.zero_pad width s).
Proof.
  unfold Str.zero_pad.
  assert (forall k, String.length
                      (string_of_list_ascii (repeat "0"%char k) ++ s)%string
                    = k + String.length s) as H.
  { induction k as [|k IH]; simpl; [reflexivity | now rewrite IH]. }
  rewrite H. lia.
Qed.

Lemma handle_name_conflict_free (t : fs) (dest_path : path) :
  exists p, handle_name_conflict t dest_path = Some p
            /\ Os.path_exists t p = false.
Proof.
  unfold handle_name_conflict.
  destruct (Os.path_exists t dest_path) eqn:Ex; simpl; [|eauto].
  destruct (OsPath.splitext (OsPath.basename dest_path)) as [nm ex].
  destruct (scan_names_bound t (OsPath.dirname dest_path) nm ex) as [p Hp].
  exists p. split; [assumption|].
  now destruct (scan_names_some _ _ _ _ _ _ Hp) as [n [_ [_ [Hfree _]]]].
Qed.

(** C5. The conflict resolver returns the desired path unchanged when it is
    free; otherwise it returns [name_NNN.ext] in the same directory for the
    smallest counter [n >= 1] whose path is free in the file system it is
    given, every smaller counter being taken.  The counter is written in
    decimal, zero-padded to at least three digits, and reads back as [n]
    whatever its size. *)
Theorem handle_name_conflict_smallest_free (t : fs) (dest_path : path) :
  (if Os.path_exists t dest_path then
     exists n,
       1 <= n
       /\ handle_name_conflict t dest_path
          = Some (OsPath.join
                    (OsPath.dirname dest_path)
                    (fst (OsPath.splitext (OsPath.basename dest_path))
                     ++ "_" ++ Str.format_03d n
                     ++ snd (OsPath.splitext (OsPath.basename dest_path)))%string)
       /\ Os.path_exists t
            (candidate (OsPath.dirname dest_path)
                       (fst (OsPath.splitext (OsPath.basename dest_path)))
                       (snd (OsPath.splitext (OsPath.basename dest_path))) n)
          = false
       /\ forallb
            (fun k =>
               Os.path_exists t
                 (candidate (OsPath.dirname dest_path)
                            (fst (OsPath.splitext (OsPath.basename dest_path)))
                            (snd (OsPath.splitext (OsPath.basename dest_path)))
                            k))
            (seq 1 (n - 1)) = true
   else handle_name_conflict t dest_path = Some dest_path)
  /\ (forall n, Str.parse_decimal (Str.format_03d n) = Some n
                /\ 3 <= String.length (Str.format_03d n))
  /\ Str.format_03d 7 = "007" /\ Str.format_03d 1000 = "1000".
Proof.
  split; [|split; [|split; reflexivity]].
  - unfold handle_name_conflict.
    destruct (Os.path_exists t dest_path); simpl; [|reflexivity].
    destruct (OsPath.splitext (OsPath.basename dest_path)) as [name ext].
    cbn [fst snd].
    destruct (scan_names_bound t (OsPath.dirname dest_path) name ext)
      as [p Hp].
    destruct (scan_names_some _ _ _ _ _ _ Hp) as [n [Hn [-> [Hfree Hbusy]]]].
    exists n. repeat split; try assumption; try lia.
    apply forallb_forall. intros k Hk. apply in_seq in Hk.
    apply Hbusy. lia.
  - intros n. split; [apply parse_format_03d | apply zero_pad_length].
Qed.

(** C10. The counter loop of the conflict resolver comes back.  For every
    file system (a directory has finitely many entries) the unbounded loop,
    started at counter 1, returns a path and that path does not exist; a
    number of iterations bounded by the size of the directory is enough, and
    more iterations give the same answer.  [handle_name_conflict] therefore
    always returns: the path it was given when that is free, and the path
    the loop returns otherwise. *)
Theorem handle_name_conflict_terminates (t : fs) (dest_path : path)
        (name ext : string) :
  (exists fuel p,
      scan_returns t (OsPath.dirname dest_path) name ext 1 p
      /\ Os.path_exists t p = false
      /\ forall extra,
          scan_names (fuel + extra) t (OsPath.dirname dest_path) name ext 1
          = Some p)
  /\ (exists p,
         handle_name_conflict t dest_path = Some p
         /\ Os.path_exists t p = false
         /\ if Os.path_exists t dest_path
            then scan_returns
                   t (OsPath.dirname dest_path)
                   (fst (OsPath.splitext (OsPath.basename dest_path)))
                   (snd (OsPath.splitext (OsPath.basename dest_path))) 1 p
            else p = dest_path).
Proof.
  split.
  - destruct (scan_names_bound t (OsPath.dirname dest_path) name ext)
      as [p Hp].
    exists (scan_bound t (OsPath.dirname dest_path)), p. repeat split.
    + eapply scan_names_returns; eauto.
    + now destruct (scan_names_some _ _ _ _ _ _ Hp) as [n [_ [_ [Hfree _]]]].
    + intros extra. now apply scan_names_more_fuel.
  - destruct (handle_name_conflict_free t dest_path) as [p [Hp Hfree]].
    exists p. repeat split; try assumption.
    unfold handle_name_conflict in Hp.
    destruct (Os.path_exists t dest_path); simpl in Hp.
    + destruct (OsPath.splitext (OsPath.basename dest_path)) as [nm ex].
      eapply scan_names_returns; eauto.
    + now injection Hp as <-.
Qed.

(** How a run ends: it returns with every discovered file counted, or
    [os.makedirs] raised before anything was looked at. *)
Lemma flatten_folder_outcome (sha256_hexdigest : list byte -> string)
      (t : fs) (input_dir output_dir : path)
      (extensions : option (list string)) (move_files : bool)
      (conflict_resolution : string) :
  match flatten_folder sha256_hexdigest t input_dir output_dir extensions
                       move_files conflict_resolution with
  | Returned _ r =>
      processed r + skipped r + errors r
      = List.length (get_all_files t input_dir extensions)
  | Raised e => Os.makedirs t output_dir = Raise e
  | Diverged => False
  end.
Proof.
  unfold flatten_folder.
  destruct (Os.makedirs t output_dir) as [t1|e] eqn:Em; [|reflexivity].
  rewrite (get_all_files_makedirs _ _ input_dir extensions Em).
  destruct (flatten_loop_returns sha256_hexdigest output_dir move_files
              conflict_resolution (get_all_files t input_dir extensions)
              (t1, results0)) as [[t' r'] H].
  rewrite H. apply flatten_loop_counts in H. simpl in H. lia.
Qed.

(** C2. Every discovered file is counted exactly once: each iteration of
    the loop comes back and adds one to exactly one of processed, skipped
    and errors, so a run that returns reports
    processed + skipped + errors = N, the number of files discovery finds in
    the source tree.  (The only other way a run ends is the exception of
    [os.makedirs] on the destination.) *)
Theorem every_file_counted_once (sha256_hexdigest : list byte -> string)
        (t : fs) (input_dir output_dir : path)
        (extensions : option (list string)) (move_files : bool)
        (conflict_resolution : string) :
  (forall t0 r source_file,
      exists t' r',
        flatten_step sha256_hexdigest output_dir move_files
                     conflict_resolution (t0, r) source_file = Some (t', r')
        /\ processed r' + skipped r' + errors r'
           = S (processed r + skipped r + errors r))
  /\ match flatten_folder sha256_hexdigest t input_dir output_dir extensions
                          move_files conflict_resolution with
     | Returned _ r =>
         processed r + skipped r + errors r
         = List.length (get_all_files t input_dir extensions)
     | Raised e => Os.makedirs t output_dir = Raise e
     | Diverged => False
     end.
Proof.
  split.
  - intros t0 r s.
    destruct (flatten_step_returns sha256_hexdigest output_dir move_files
                                   conflict_resolution (t0, r) s)
      as [[t' r'] H].
    exists t', r'. split; [assumption|].
    eapply flatten_step_counts; eauto.
  - apply flatten_folder_outcome.
Qed.

(** C9. The [conflict_resolution] argument has no effect: two runs that
    differ only in it return the same results and leave the same file
    system, whatever the two values are ("rename", "skip" and "overwrite"
    included). *)
Theorem conflict_resolution_ignored (sha256_hexdigest : list byte -> string)
        (t : fs) (input_dir output_dir : path)
        (extensions : option (list string)) (move_files : bool)
        (cr1 cr2 : string) :
  flatten_folder sha256_hexdigest t input_dir output_dir extensions
                 move_files cr1
  = flatten_folder sha256_hexdigest t input_dir output_dir extensions
                   move_files cr2.
Proof.
  unfold flatten_folder.
  destruct (Os.makedirs t output_dir) as [t1|e]; [|reflexivity].
  now rewrite (flatten_loop_conflict_resolution sha256_hexdigest output_dir
                 move_files cr1 cr2).
Qed.

(** C8. A failing copy or move stays with its file: when the transfer of
    [source_file] to the destination the loop settled on raises, the
    iteration adds one to errors, appends the file to error_files, leaves
    processed and skipped alone, and the loop goes on with the remaining
    files from there.  The loop returns for every list of files, and a run
    ends with a result unless creating the destination directory raised
    before the first file. *)
Theorem placement_failure_isolated (sha256_hexdigest : list byte -> string)
        (output_dir : path) (move_files : bool) (conflict_resolution : string)
        (t t' : fs) (r : results) (source_file dest_path : path)
        (rest : list path) (e : exn)
        (Hdest : resolves_to sha256_hexdigest output_dir t source_file dest_path)
        (Hfail : transfer move_files t source_file dest_path = (t', Raise e)) :
  (exists r',
      flatten_step sha256_hexdigest output_dir move_files conflict_resolution
                   (t, r) source_file = Some (t', r')
      /\ errors r' = S (errors r)
      /\ error_files r' = error_files r ++ [source_file]
      /\ processed r' = processed r
      /\ skipped r' = skipped r
      /\ flatten_loop sha256_hexdigest output_dir move_files
                      conflict_resolution (source_file :: rest) (t, r)
         = flatten_loop sha256_hexdigest output_dir move_files
                        conflict_resolution rest (t', r'))
  /\ (forall all_files st,
         exists st',
           flatten_loop sha256_hexdigest output_dir move_files
                        conflict_resolution all_files st = Some st')
  /\ (forall t0 input_dir extensions,
         match flatten_folder sha256_hexdigest t0 input_dir output_dir
                              extensions move_files conflict_resolution with
         | Returned _ r0 =>
             errors r0 <= List.length (get_all_files t0 input_dir extensions)
         | Raised e0 => Os.makedirs t0 output_dir = Raise e0
         | Diverged => False
         end).
Proof.
  split; [|split; [intros; apply flatten_loop_returns|]].
  2:{ intros t0 input_dir extensions.
      pose proof (flatten_folder_outcome sha256_hexdigest t0 input_dir
                    output_dir extensions move_files conflict_resolution) as H.
      destruct (flatten_folder _ _ _ _ _ _ _); try assumption. lia. }
  unfold resolves_to, desired_dest in Hdest.
  cbn [flatten_loop]. unfold flatten_step, place.
  destruct (Os.path_exists t (OsPath.join output_dir (OsPath.basename source_file))).
  - destruct Hdest as [-> ->]. rewrite Hfail.
    eexists. split; [reflexivity|]. simpl. auto.
  - subst dest_path. rewrite conflict_resolution_branch_id, Hfail.
    eexists. split; [reflexivity|]. simpl. auto.
Qed.

Lemma placement_failure_isolated_witness :
  resolves_to plain_digest ["dst"] fs_locked_source
              ["src"; "a"; "x.wav"] ["dst"; "x.wav"]
  /\ transfer false fs_locked_source ["src"; "a"; "x.wav"] ["dst"; "x.wav"]
     = (fs_locked_source, Raise PermissionError)
  /\ exists r',
      flatten_step plain_digest ["dst"] false "rename"
                   (fs_locked_source, results0) ["src"; "a"; "x.wav"]
      = Some (fs_locked_source, r')
      /\ errors r' = 1
      /\ error_files r' = [["src"; "a"; "x.wav"]]
      /\ processed r' = 0
      /\ skipped r' = 0
      /\ flatten_loop plain_digest ["dst"] false "rename"
                      [["src"; "a"; "x.wav"]; ["src"; "a"; "y.wav"]]
                      (fs_locked_source, results0)
         = flatten_loop plain_digest ["dst"] false "rename"
                        [["src"; "a"; "y.wav"]] (fs_locked_source, r').
Proof.
  split; [reflexivity | split; [reflexivity|]].
  apply (@placement_failure_isolated plain_digest ["dst"] false "rename"
           fs_locked_source fs_locked_source results0
           ["src"; "a"; "x.wav"] ["dst"; "x.wav"]
           [["src"; "a"; "y.wav"]] PermissionError);
    reflexivity.
Defined.

(** C1, as the code has it.  When the comparison cannot read one of the two
    files, [files_are_identical] answers [False]: the loop counts the
    conflict, takes the next free suffixed name and transfers the file
    there.  The file is placed under that name when the transfer works, and
    is recorded as an error only when the transfer itself raises. *)
Theorem read_failure_means_different (sha256_hexdigest : list byte -> string)
        (output_dir : path) (move_files : bool) (conflict_resolution : string)
        (t : fs) (r : results) (source_file : path) (e : exn)
        (Hexists : Os.path_exists t (desired_dest output_dir source_file) = true)
        (Hraise : compare_files sha256_hexdigest t source_file
                                (desired_dest output_dir source_file)
                  = Raise e) :
  files_are_identical sha256_hexdigest t source_file
                      (desired_dest output_dir source_file) = false
  /\ exists dest_path,
      handle_name_conflict t (desired_dest output_dir source_file)
      = Some dest_path
      /\ Os.path_exists t dest_path = false
      /\ flatten_step sha256_hexdigest output_dir move_files
                      conflict_resolution (t, r) source_file
         = Some (match transfer move_files t source_file dest_path with
                 | (t', Ok _) => (t', incr_processed (incr_conflicts r))
                 | (t', Raise _) =>
                     (t', record_error (incr_conflicts r) source_file)
                 end).
Proof.
  assert (files_are_identical sha256_hexdigest t source_file
                              (desired_dest output_dir source_file) = false)
    as Hdiff by (unfold files_are_identical; now rewrite Hraise).
  split; [exact Hdiff|].
  destruct (handle_name_conflict_free t (desired_dest output_dir source_file))
    as [d [Hd Hfree]].
  exists d. repeat split; try assumption.
  unfold flatten_step. fold (desired_dest output_dir source_file).
  now rewrite Hexists, Hdiff, Hd.
Qed.

Lemma read_failure_means_different_witness :
  Os.path_exists fs_locked_dest (desired_dest ["dst"] ["src"; "a"; "x.wav"])
  = true
  /\ compare_files plain_digest fs_locked_dest ["src"; "a"; "x.wav"]
                   (desired_dest ["dst"] ["src"; "a"; "x.wav"])
     = Raise PermissionError
  /\ files_are_identical plain_digest fs_locked_dest ["src"; "a"; "x.wav"]
                         (desired_dest ["dst"] ["src"; "a"; "x.wav"]) = false.
Proof.
  split; [reflexivity | split; [reflexivity|]].
  apply (@read_failure_means_different plain_digest ["dst"] false "rename"
           fs_locked_dest results0 ["src"; "a"; "x.wav"] PermissionError);
    reflexivity.
Defined.

(** C1 as stated fails: here the destination file cannot be read, the
    comparison raises, and yet the run records no error and places the file
    under a renamed name. *)
Lemma read_failure_counterexample :
  ~ (forall (sha256_hexdigest : list byte -> string) (output_dir : path)
            (move_files : bool) (conflict_resolution : string)
            (t : fs) (r : results) (source_file : path) (e : exn),
        Os.path_exists t (desired_dest output_dir source_file) = true ->
        compare_files sha256_hexdigest t source_file
                      (desired_dest output_dir source_file) = Raise e ->
        exists t' r',
          flatten_step sha256_hexdigest output_dir move_files
                       conflict_resolution (t, r) source_file = Some (t', r')
          /\ errors r' = S (errors r)).
Proof.
  intros H.
  destruct (H plain_digest ["dst"] false "rename" fs_locked_dest results0
              ["src"; "a"; "x.wav"] PermissionError eq_refl eq_refl)
    as [t' [r' [Hstep Herr]]].
  vm_compute in Hstep. injection Hstep as <- <-. discriminate.
Qed.

(** C3, as the code has it.  Discovery reports the files in the order of the
    walk: for each directory its own files as listed, then the files of its
    entries in listing order.  The sequence depends on nothing but the tree
    under the source root, so an unchanged tree gives the same sequence. *)
Theorem discovery_follows_walk (t1 t2 : fs) (input_dir : path)
        (extensions : option (list string))
        (Hsame : Fs.lookup t1 input_dir = Fs.lookup t2 input_dir) :
  get_all_files t1 input_dir extensions = get_all_files t2 input_dir extensions
  /\ get_all_files t1 input_dir extensions
     = files_at (normalize_extensions extensions) input_dir
                (Fs.lookup t1 input_dir)
  /\ forall exts top w es,
      files_in_order exts top (Dir w es)
      = own_files exts top es ++ files_below exts top es.
Proof.
  split; [|split].
  - rewrite !get_all_files_in_order. now rewrite Hsame.
  - apply get_all_files_in_order.
  - intros. apply files_in_order_dir.
Qed.

Lemma discovery_follows_walk_witness :
  Fs.lookup fs_two_levels ["src"] = Fs.lookup fs_two_levels_dest ["src"]
  /\ get_all_files fs_two_levels ["src"] None
     = get_all_files fs_two_levels_dest ["src"] None.
Proof.
  split; [reflexivity|].
  apply (@discovery_follows_walk fs_two_levels fs_two_levels_dest ["src"] None).
  reflexivity.
Defined.

(** C3 as stated fails: [z.txt] in the source root is reported before
    [a/b.txt], which sorts first. *)
Lemma discovery_order_counterexample :
  ~ (forall (t : fs) (input_dir : path) (extensions : option (list string)),
        lex_sorted (map (relative_path input_dir)
                        (get_all_files t input_dir extensions)) = true).
Proof.
  intros H. specialize (H fs_two_levels ["src"] None).
  vm_compute in H. discriminate.
Qed.

(** C4, as the code has it.  When the source root is missing or is not a
    directory, discovery finds nothing and the run returns with all counts
    at zero and no file placed; the destination directory has been created
    all the same.  No exception is raised for the source root: the only one
    that leaves [flatten_folder] is that of creating the destination. *)
Theorem missing_source_gives_empty_run
        (sha256_hexdigest : list byte -> string)
        (t : fs) (input_dir output_dir : path)
        (extensions : option (list string)) (move_files : bool)
        (conflict_resolution : string)
        (Hmissing : Os.isdir t input_dir = false) :
  get_all_files t input_dir extensions = []
  /\ flatten_folder sha256_hexdigest t input_dir output_dir extensions
                    move_files conflict_resolution
     = match Os.makedirs t output_dir with
       | Ok t1 => Returned t1 results0
       | Raise e => Raised e
       end.
Proof.
  assert (get_all_files t input_dir extensions = []) as Hnone.
  { rewrite get_all_files_in_order. unfold Os.isdir in Hmissing.
    destruct (Fs.lookup t input_dir) as [[f|w es]|];
      [reflexivity | discriminate | reflexivity]. }
  split; [exact Hnone|].
  unfold flatten_folder.
  destruct (Os.makedirs t output_dir) as [t1|e] eqn:Em; [|reflexivity].
  rewrite (get_all_files_makedirs _ _ input_dir extensions Em), Hnone.
  reflexivity.
Qed.

Lemma missing_source_gives_empty_run_witness :
  Os.isdir fs_empty ["src"] = false
  /\ flatten_folder plain_digest fs_empty ["src"] ["dst"] None false "rename"
     = match Os.makedirs fs_empty ["dst"] with
       | Ok t1 => Returned t1 results0
       | Raise e => Raised e
       end.
Proof.
  split; [reflexivity|].
  apply (@missing_source_gives_empty_run plain_digest fs_empty ["src"] ["dst"]
           None false "rename").
  reflexivity.
Defined.

(** C4 as stated fails: with no source root at all the run raises nothing;
    it returns, having created the destination directory. *)
Lemma missing_source_counterexample :
  ~ (forall (sha256_hexdigest : list byte -> string) (t : fs)
            (input_dir output_dir : path) (extensions : option (list string))
            (move_files : bool) (conflict_resolution : string),
        Os.isdir t input_dir = false ->
        exists e,
          flatten_folder sha256_hexdigest t input_dir output_dir extensions
                         move_files conflict_resolution = Raised e).
Proof.
  intros H.
  destruct (H plain_digest fs_empty ["src"] ["dst"] None false "rename"
              eq_refl) as [e He].
  vm_compute in He. discriminate.
Qed.

(** C6, as the code has it.  In copy mode, when a first run returns having
    recorded no error and renamed nothing (every conflict it met was an
    identical file it skipped), a second run over the same discovered files
    and the file system the first run left places nothing: processed is 0,
    skipped is N, and the file system stays as it is. *)
Theorem copy_rerun_only_skips (sha256_hexdigest : list byte -> string)
        (t t1 : fs) (input_dir output_dir : path)
        (extensions : option (list string)) (conflict_resolution : string)
        (r1 : results)
        (Hrun : flatten_folder sha256_hexdigest t input_dir output_dir
                               extensions false conflict_resolution
                = Returned t1 r1)
        (Herrors : errors r1 = 0)
        (Hrenames : conflicts r1 = skipped r1)
        (Hsource : get_all_files t1 input_dir extensions
                   = get_all_files t input_dir extensions) :
  exists r2,
    flatten_folder sha256_hexdigest t1 input_dir output_dir extensions false
                   conflict_resolution = Returned t1 r2
    /\ processed r2 = 0
    /\ skipped r2 = List.length (get_all_files t input_dir extensions)
    /\ errors r2 = 0.
Proof.
  unfold flatten_folder in Hrun.
  destruct (Os.makedirs t output_dir) as [ta|e] eqn:Em; [|discriminate].
  rewrite (get_all_files_makedirs _ _ input_dir extensions Em) in Hrun.
  destruct (flatten_loop sha256_hexdigest output_dir false conflict_resolution
              (get_all_files t input_dir extensions) (ta, results0))
    as [[tb rb]|] eqn:El; [|discriminate].
  injection Hrun as -> ->.
  destruct (@flatten_loop_clean sha256_hexdigest output_dir
              conflict_resolution _ _ _ _ _ El) as [G Hall];
    [simpl; lia | simpl; lia |].
  assert (Os.makedirs t1 output_dir = Ok t1) as Em1.
  { apply makedirs_existing. apply (@fs_grows_isdir ta t1 output_dir G).
    eapply makedirs_isdir; eauto. }
  unfold flatten_folder. rewrite Em1, Hsource.
  rewrite (@flatten_loop_all_identical sha256_hexdigest output_dir
             conflict_resolution false t1 _ Hall results0).
  eexists. split; [reflexivity|]. simpl. auto.
Qed.

Lemma copy_rerun_only_skips_witness :
  flatten_folder plain_digest fs_two_levels ["src"] ["dst"] None false "rename"
  = Returned fs_two_levels_flat (mkResults 2 0 0 0 [])
  /\ get_all_files fs_two_levels_flat ["src"] None
     = get_all_files fs_two_levels ["src"] None
  /\ exists r2,
      flatten_folder plain_digest fs_two_levels_flat ["src"] ["dst"] None
                     false "rename" = Returned fs_two_levels_flat r2
      /\ processed r2 = 0
      /\ skipped r2 = List.length (get_all_files fs_two_levels ["src"] None)
      /\ errors r2 = 0.
Proof.
  split; [reflexivity | split; [reflexivity|]].
  apply (@copy_rerun_only_skips plain_digest fs_two_levels fs_two_levels_flat
           ["src"] ["dst"] None "rename" (mkResults 2 0 0 0 []));
    reflexivity.
Defined.

(** C6 as stated fails: two source files share a name and differ in
    content; the first run places [x.wav] and [x_001.wav], and the second
    run compares [b/x.wav] with [x.wav] again, finds them different, and
    places it once more as [x_002.wav]. *)
Lemma copy_rerun_counterexample :
  ~ (forall (sha256_hexdigest : list byte -> string) (t t1 : fs)
            (input_dir output_dir : path) (extensions : option (list string))
            (conflict_resolution : string) (r1 : results),
        flatten_folder sha256_hexdigest t input_dir output_dir extensions
                       false conflict_resolution = Returned t1 r1 ->
        get_all_files t1 input_dir extensions
        = get_all_files t input_dir extensions ->
        exists t2 r2,
          flatten_folder sha256_hexdigest t1 input_dir output_dir extensions
                         false conflict_resolution = Returned t2 r2
          /\ processed r2 = 0
          /\ skipped r2 = List.length (get_all_files t input_dir extensions)).
Proof.
  intros H.
  destruct (flatten_folder plain_digest fs_same_name ["src"] ["dst"] None
                           false "rename") as [t1 r1| |] eqn:E1;
    try (vm_compute in E1; discriminate).
  assert (get_all_files t1 ["src"] None = get_all_files fs_same_name ["src"] None)
    as Hsrc by (vm_compute in E1; injection E1 as <- <-; reflexivity).
  destruct (H plain_digest fs_same_name t1 ["src"] ["dst"] None "rename" r1
              E1 Hsrc) as [t2 [r2 [E2 [Hp _]]]].
  vm_compute in E1. injection E1 as <- <-.
  vm_compute in E2. injection E2 as <- <-. discriminate.
Qed.

(* ================================================================== *)
(** ** Further properties of the script *)

(** *** What a copying run leaves in place *)

Lemma makedirs_grows :
  forall (p : path) (t t' : node),
    Os.makedirs_from t p = Ok t' -> fs_grows t t'.
Proof.
  unfold fs_grows.
  induction p as [|c p IH]; intros t t' H q n Hq.
  - simpl in H. destruct t; [discriminate|]. injection H as <-.
    exists n. split; [assumption | apply node_kept_refl].
  - cbn [Os.makedirs_from] in H. destruct t as [f|w es]; [discriminate|].
    assert (forall sub',
               (forall q' n', match Fs.child c es with
                              | Some sub => Fs.lookup sub q' = Some n'
                              | None => False
                              end ->
                              exists n'', Fs.lookup sub' q' = Some n''
                                          /\ node_kept n' n'') ->
               exists n', Fs.lookup (Dir w (Fs.set_child c sub' es)) q = Some n'
                          /\ node_kept n n') as Hstep.
    { intros sub' Hsub. destruct q as [|c' q]; cbn [Fs.lookup] in *.
      - injection Hq as <-. eexists; split; [reflexivity | exact I].
      - rewrite child_set_child.
        destruct (String.eqb_spec c' c) as [->|Hne].
        + apply Hsub. destruct (Fs.child c es); [assumption | discriminate].
        + destruct (Fs.child c' es); [|discriminate].
          exists n. split; [assumption | apply node_kept_refl]. }
    destruct (Fs.child c es) as [sub|] eqn:Ec.
    + destruct (Os.makedirs_from sub p) as [sub'|] eqn:E; [|discriminate].
      simpl in H. injection H as <-. apply Hstep.
      intros q' n' Hq'. eapply IH; eauto.
    + destruct w; [|discriminate].
      destruct (Os.makedirs_from (Dir true []) p) as [sub'|] eqn:E;
        [|discriminate].
      simpl in H. injection H as <-. apply Hstep. intros q' n' [].
Qed.

Lemma handle_name_conflict_fresh (t : fs) (dest_path d : path) :
  handle_name_conflict t dest_path = Some d -> Os.path_exists t d = false.
Proof.
  intros H. destruct (handle_name_conflict_free t dest_path) as [p [Hp Hfree]].
  rewrite H in Hp. now injection Hp as ->.
Qed.

Lemma removelast_join (dir : path) (name : string) :
  OsPath.dirname (OsPath.join dir name) = dir.
Proof. unfold OsPath.dirname, OsPath.join. apply removelast_last. Qed.

Lemma basename_join (dir : path) (name : string) :
  OsPath.basename (OsPath.join dir name) = name.
Proof. unfold OsPath.basename, OsPath.join. apply last_last. Qed.

(** The renamed path lies in the directory of the path it replaces. *)
Lemma handle_name_conflict_sibling (t : fs) (dir : path) (name : string)
      (d : path) :
  handle_name_conflict t (OsPath.join dir name) = Some d ->
  exists name', d = OsPath.join dir name'.
Proof.
  unfold handle_name_conflict.
  destruct (Os.path_exists t (OsPath.join dir name)); simpl.
  - rewrite removelast_join.
    destruct (OsPath.splitext (OsPath.basename (OsPath.join dir name)))
      as [nm ex].
    intros H. destruct (scan_names_some _ _ _ _ _ _ H) as [n [_ [-> _]]].
    unfold candidate. eauto.
  - intros H. injection H as <-. eauto.
Qed.

Section CopyRun.

Variable sha256_hexdigest : list byte -> string.
Variables (output_dir : path) (conflict_resolution : string).

(** One iteration in copy mode: nothing that was there is lost, and the
    file is skipped as identical, copied, or recorded as failed. *)
Lemma flatten_step_copy (t t' : fs) (r r' : results) (s : path) :
  flatten_step sha256_hexdigest output_dir false conflict_resolution (t, r) s
  = Some (t', r') ->
  fs_grows t t'
  /\ (forall x, In x (error_files r) -> In x (error_files r'))
  /\ (In s (error_files r')
      \/ exists name,
          identical_files sha256_hexdigest t' s (OsPath.join output_dir name)).
Proof.
  assert (forall d rr,
             Os.path_exists t d = false ->
             (exists name, d = OsPath.join output_dir name) ->
             place false t rr s d = (t', r') ->
             error_files rr = error_files r ->
             fs_grows t t'
             /\ (forall x, In x (error_files r) -> In x (error_files r'))
             /\ (In s (error_files r')
                 \/ exists name,
                     identical_files sha256_hexdigest t' s
                                     (OsPath.join output_dir name)))
    as Hplace.
  { intros d rr Hfree [name ->] Hp Herr. unfold place, transfer in Hp.
    destruct (Shutil.copy2 t s (OsPath.join output_dir name)) as [t2|e] eqn:Ec;
      injection Hp as <- <-.
    - destruct (@copy2_fresh_grows _ _ _ _ Hfree Ec) as [G [f [Hs [Hd R]]]].
      split; [exact G|]. split; [simpl; now rewrite Herr|].
      right. exists name, f, f. repeat split; assumption.
    - split; [apply fs_grows_refl|]. simpl. rewrite Herr.
      split; [intros x Hx; apply in_or_app; now left|].
      left. apply in_or_app. right. now left. }
  unfold flatten_step.
  destruct (Os.path_exists t (OsPath.join output_dir (OsPath.basename s)))
    eqn:Ex.
  - destruct (files_are_identical sha256_hexdigest t s
                (OsPath.join output_dir (OsPath.basename s))) eqn:Ei.
    + intros H. injection H as <- <-.
      split; [apply fs_grows_refl|]. split; [auto|].
      right. exists (OsPath.basename s). now apply files_are_identical_true.
    + destruct (handle_name_conflict t (OsPath.join output_dir (OsPath.basename s)))
        as [d|] eqn:Eh; [|discriminate].
      intros H. injection H as H.
      apply (Hplace d (incr_conflicts r)); try assumption.
      * eapply handle_name_conflict_fresh; eauto.
      * eapply handle_name_conflict_sibling; eauto.
      * reflexivity.
  - rewrite conflict_resolution_branch_id. intros H. injection H as H.
    apply (Hplace (OsPath.join output_dir (OsPath.basename s)) r);
      try assumption; [eauto | reflexivity].
Qed.

Lemma flatten_loop_copy (all_files : list path) :
  forall t r t' r',
    flatten_loop sha256_hexdigest output_dir false conflict_resolution
                 all_files (t, r) = Some (t', r') ->
    fs_grows t t'
    /\ (forall x, In x (error_files r) -> In x (error_files r'))
    /\ forall s, In s all_files ->
                 In s (error_files r')
                 \/ exists name,
                     identical_files sha256_hexdigest t' s
                                     (OsPath.join output_dir name).
Proof.
  induction all_files as [|s rest IH]; intros t r t' r'; cbn [flatten_loop].
  - intros H. injection H as <- <-.
    split; [apply fs_grows_refl|]. split; [auto | intros s []].
  - destruct (flatten_step _ _ _ _ (t, r) s) as [[t1 r1]|] eqn:E;
      [|discriminate].
    intros H.
    destruct (flatten_step_copy _ _ _ E) as [G1 [E1 A1]].
    destruct (IH _ _ _ _ H) as [G2 [E2 A2]].
    split; [eapply fs_grows_trans; eauto|]. split; [auto|].
    intros s' [<-|Hin]; [|now apply A2].
    destruct A1 as [Herr | [name Hid]]; [left; auto|].
    right. exists name. eapply identical_files_grows; eauto.
Qed.

End CopyRun.

(** X1. A copying run loses nothing: every regular file that existed before
    the run, in the source tree, in the destination or anywhere else, is still
    at its path with the same content and permission afterwards, and every
    directory is still a directory.  Nothing is overwritten or deleted. *)
Theorem copy_run_preserves_files (sha256_hexdigest : list byte -> string)
        (t t' : fs) (input_dir output_dir : path)
        (extensions : option (list string)) (conflict_resolution : string)
        (r : results)
        (Hrun : flatten_folder sha256_hexdigest t input_dir output_dir
                               extensions false conflict_resolution
                = Returned t' r) :
  (forall q f, Fs.lookup t q = Some (File f) -> Fs.lookup t' q = Some (File f))
  /\ (forall q, Os.isdir t q = true -> Os.isdir t' q = true).
Proof.
  unfold flatten_folder in Hrun.
  destruct (Os.makedirs t output_dir) as [t1|e] eqn:Em; [|discriminate].
  destruct (flatten_loop _ _ _ _ _ (t1, results0)) as [[t2 r2]|] eqn:El;
    [|discriminate].
  injection Hrun as -> ->.
  assert (fs_grows t t') as G.
  { eapply fs_grows_trans; [eapply makedirs_grows; eauto|].
    eapply flatten_loop_copy; eauto. }
  split.
  - intros q f Hq. eapply fs_grows_file; eauto.
  - intros q Hq. eapply fs_grows_isdir; eauto.
Qed.

Lemma copy_run_preserves_files_witness :
  flatten_folder plain_digest fs_same_name ["src"] ["dst"] None false "rename"
  = Returned fs_same_name_flat
      (mkResults 2 0 1 0 [])
  /\ forall q, Os.isdir fs_same_name q = true ->
               Os.isdir fs_same_name_flat q = true.
Proof.
  split; [reflexivity|].
  apply (@copy_run_preserves_files plain_digest fs_same_name _ ["src"] ["dst"]
           None "rename" (mkResults 2 0 1 0 [])).
  reflexivity.
Defined.

(** X2. A copying run accounts for every discovered file: when it returns,
    each discovered source file is either listed in error_files or has a
    readable file of the same size and digest directly inside the
    destination directory (under its own name or a suffixed one), while the
    source file itself is still in place. *)
Theorem copy_run_places_or_reports (sha256_hexdigest : list byte -> string)
        (t t' : fs) (input_dir output_dir : path)
        (extensions : option (list string)) (conflict_resolution : string)
        (r : results) (source_file : path)
        (Hrun : flatten_folder sha256_hexdigest t input_dir output_dir
                               extensions false conflict_resolution
                = Returned t' r)
        (Hfound : In source_file (get_all_files t input_dir extensions)) :
  In source_file (error_files r)
  \/ exists name fa fb,
      Fs.lookup t' source_file = Some (File fa)
      /\ Fs.lookup t' (OsPath.join output_dir name) = Some (File fb)
      /\ readable fa = true /\ readable fb = true
      /\ List.length (content fa) = List.length (content fb)
      /\ sha256_hexdigest (content fa) = sha256_hexdigest (content fb).
Proof.
  unfold flatten_folder in Hrun.
  destruct (Os.makedirs t output_dir) as [t1|e] eqn:Em; [|discriminate].
  rewrite (get_all_files_makedirs _ _ input_dir extensions Em) in Hrun.
  destruct (flatten_loop _ _ _ _ _ (t1, results0)) as [[t2 r2]|] eqn:El;
    [|discriminate].
  injection Hrun as -> ->.
  destruct (flatten_loop_copy _ _ _ _ _ _ El) as [_ [_ Hall]].
  destruct (Hall _ Hfound) as [Herr | [name [fa [fb H]]]]; [now left|].
  right. exists name, fa, fb. exact H.
Qed.

Lemma copy_run_places_or_reports_witness :
  flatten_folder plain_digest fs_locked_source ["src"] ["dst"] None false
                 "rename"
  = Returned fs_locked_source_flat
      (mkResults 1 0 0 1 [["src"; "a"; "x.wav"]])
  /\ In ["src"; "a"; "y.wav"] (get_all_files fs_locked_source ["src"] None)
  /\ (In ["src"; "a"; "y.wav"] [["src"; "a"; "x.wav"]]
      \/ exists name fa fb,
          Fs.lookup
            fs_locked_source_flat
            ["src"; "a"; "y.wav"] = Some (File fa)
          /\ Fs.lookup
               fs_locked_source_flat
               (OsPath.join ["dst"] name) = Some (File fb)
          /\ readable fa = true /\ readable fb = true
          /\ List.length (content fa) = List.length (content fb)
          /\ plain_digest (content fa) = plain_digest (content fb)).
Proof.
  split; [reflexivity|]. split; [simpl; auto|].
  apply (@copy_run_places_or_reports plain_digest fs_locked_source _ ["src"]
           ["dst"] None "rename" (mkResults 1 0 0 1 [["src"; "a"; "x.wav"]])
           ["src"; "a"; "y.wav"]).
  - reflexivity.
  - simpl; auto.
Defined.

(** *** The counters of a run *)

Section Counters.

Variable sha256_hexdigest : list byte -> string.
Variables (output_dir : path) (move_files : bool)
          (conflict_resolution : string).

Lemma flatten_step_counters (t t' : fs) (r r' : results) (s : path) :
  flatten_step sha256_hexdigest output_dir move_files conflict_resolution
               (t, r) s = Some (t', r') ->
  (skipped r <= conflicts r -> skipped r' <= conflicts r')
  /\ (conflicts r <= processed r + skipped r + errors r ->
      conflicts r' <= processed r' + skipped r' + errors r')
  /\ (List.length (error_files r) = errors r ->
      List.length (error_files r') = errors r')
  /\ (forall x, In x (error_files r') -> In x (error_files r) \/ x = s).
Proof.
  intros H.
  destruct (flatten_step_kind sha256_hexdigest output_dir move_files
                              conflict_resolution t r s) as [st' [H' K]].
  rewrite H in H'. injection H' as E. subst st'.
  inversion K; subst; try destruct conflict; simpl;
    repeat split; intros; try lia; auto;
    try (rewrite length_app; simpl; lia);
    try (match goal with
         | Hin : In _ (_ ++ _) |- _ =>
             apply in_app_or in Hin; destruct Hin as [?|[<-|[]]]; auto
         end).
Qed.

Lemma flatten_loop_counters (all_files : list path) :
  forall t r t' r',
    flatten_loop sha256_hexdigest output_dir move_files conflict_resolution
                 all_files (t, r) = Some (t', r') ->
    (skipped r <= conflicts r -> skipped r' <= conflicts r')
    /\ (conflicts r <= processed r + skipped r + errors r ->
        conflicts r' <= processed r' + skipped r' + errors r')
    /\ (List.length (error_files r) = errors r ->
        List.length (error_files r') = errors r')
    /\ (forall x, In x (error_files r') ->
                  In x (error_files r) \/ In x all_files).
Proof.
  induction all_files as [|s rest IH]; intros t r t' r'; cbn [flatten_loop].
  - intros H. injection H as <- <-. repeat split; auto.
  - destruct (flatten_step _ _ _ _ (t, r) s) as [[t1 r1]|] eqn:E;
      [|discriminate].
    intros H.
    destruct (flatten_step_counters _ _ _ E) as [A1 [B1 [C1 D1]]].
    destruct (IH _ _ _ _ H) as [A2 [B2 [C2 D2]]].
    repeat split; auto.
    intros x Hx. destruct (D2 x Hx) as [Hx1 | Hx2]; [|right; now right].
    destruct (D1 x Hx1) as [Hx0 | ->]; [now left | right; now left].
Qed.

End Counters.

(** X3. The counters of a returned result fit together, in copy and in move
    mode: skipped never exceeds conflicts, conflicts never exceeds the number
    of discovered files, error_files has exactly errors entries, and every
    path in error_files is one of the discovered files. *)
Theorem results_are_consistent (sha256_hexdigest : list byte -> string)
        (t : fs) (input_dir output_dir : path)
        (extensions : option (list string)) (move_files : bool)
        (conflict_resolution : string) :
  match flatten_folder sha256_hexdigest t input_dir output_dir extensions
                       move_files conflict_resolution with
  | Returned _ r =>
      skipped r <= conflicts r
      /\ conflicts r <= List.length (get_all_files t input_dir extensions)
      /\ List.length (error_files r) = errors r
      /\ incl (error_files r) (get_all_files t input_dir extensions)
  | Raised _ => True
  | Diverged => True
  end.
Proof.
  pose proof (flatten_folder_outcome sha256_hexdigest t input_dir output_dir
                extensions move_files conflict_resolution) as Hsum.
  unfold flatten_folder in *.
  destruct (Os.makedirs t output_dir) as [t1|e] eqn:Em; [|exact I].
  rewrite (get_all_files_makedirs _ _ input_dir extensions Em) in *.
  destruct (flatten_loop _ _ _ _ _ (t1, results0)) as [[t2 r2]|] eqn:El;
    [|exact I].
  destruct (flatten_loop_counters _ _ _ _ _ _ _ El) as [A [B [C D]]].
  simpl in A, B, C.
  split; [apply A; lia|]. split; [specialize (B (Nat.le_0_l _)); lia|].
  split; [now apply C|].
  intros x Hx. destruct (D x Hx) as [[]|]; assumption.
Qed.

(** *** The comparison in closed form *)

(** X4. [files_are_identical] never raises and is decided by the two files
    alone: it is true exactly when both paths are regular files that can be
    read, have the same size and the same digest; a missing path, a
    directory or an unreadable file on either side gives [False]. *)
Theorem files_are_identical_decides (sha256_hexdigest : list byte -> string)
        (t : fs) (file1 file2 : path) :
  files_are_identical sha256_hexdigest t file1 file2
  = match Fs.lookup t file1, Fs.lookup t file2 with
    | Some (File f1), Some (File f2) =>
        Nat.eqb (List.length (content f1)) (List.length (content f2))
        && readable f1 && readable f2
        && String.eqb (sha256_hexdigest (content f1))
                      (sha256_hexdigest (content f2))
    | _, _ => false
    end.
Proof.
  unfold files_are_identical, compare_files.
  rewrite !get_file_hash_whole. unfold Os.getsize, Os.open_rb.
  destruct (Fs.lookup t file1) as [[f1|w1 e1]|]; simpl;
    destruct (Fs.lookup t file2) as [[f2|w2 e2]|]; simpl;
    try reflexivity.
  - destruct (Nat.eqb (List.length (content f1)) (List.length (content f2)));
      simpl; [|reflexivity].
    destruct (readable f1); simpl; [|reflexivity].
    destruct (readable f2); reflexivity.
  - split_ifs; reflexivity.
  - split_ifs; reflexivity.
Qed.

Lemma files_are_identical_closed (sha256_hexdigest : list byte -> string)
      (t : fs) (file1 file2 : path) :
  files_are_identical sha256_hexdigest t file1 file2
  = match Fs.lookup t file1, Fs.lookup t file2 with
    | Some (File f1), Some (File f2) =>
        Nat.eqb (List.length (content f1)) (List.length (content f2))
        && readable f1 && readable f2
        && String.eqb (sha256_hexdigest (content f1))
                      (sha256_hexdigest (content f2))
    | _, _ => false
    end.
Proof.
  destruct (files_are_identical sha256_hexdigest t file1 file2) eqn:E.
  - apply files_are_identical_true in E.
    destruct E as [fa [fb [-> [-> [Ra [Rb [El Eh]]]]]]].
    now rewrite El, Nat.eqb_refl, Ra, Rb, Eh, String.eqb_refl.
  - destruct (Fs.lookup t file1) as [[f1|w1 e1]|] eqn:E1; try reflexivity.
    destruct (Fs.lookup t file2) as [[f2|w2 e2]|] eqn:E2; try reflexivity.
    destruct (Nat.eqb_spec (List.length (content f1))
                           (List.length (content f2))) as [El|];
      [|reflexivity].
    destruct (readable f1) eqn:Ra; [|reflexivity].
    destruct (readable f2) eqn:Rb; [|reflexivity].
    destruct (String.eqb_spec (sha256_hexdigest (content f1))
                              (sha256_hexdigest (content f2))) as [Eh|];
      [|reflexivity].
    assert (files_are_identical sha256_hexdigest t file1 file2 = true) as H
        by (apply files_are_identical_true; exists f1, f2; auto 10).
    congruence.
Qed.

(** X5. The comparison is symmetric (the order of the two paths does not
    matter), and a path compares identical to itself exactly when it is a
    regular file that can be read. *)
Theorem files_are_identical_symmetric (sha256_hexdigest : list byte -> string)
        (t : fs) (file1 file2 : path) :
  files_are_identical sha256_hexdigest t file1 file2
  = files_are_identical sha256_hexdigest t file2 file1
  /\ files_are_identical sha256_hexdigest t file1 file1
     = match Fs.lookup t file1 with
       | Some (File f) => readable f
       | _ => false
       end.
Proof.
  rewrite !files_are_identical_closed. split.
  - destruct (Fs.lookup t file1) as [[f1|w1 e1]|];
      destruct (Fs.lookup t file2) as [[f2|w2 e2]|]; try reflexivity.
    rewrite (Nat.eqb_sym (List.length (content f1))),
            (String.eqb_sym (sha256_hexdigest (content f1))).
    destruct (Nat.eqb _ _), (readable f1), (readable f2); reflexivity.
  - destruct (Fs.lookup t file1) as [[f1|w1 e1]|]; try reflexivity.
    rewrite Nat.eqb_refl, String.eqb_refl.
    destruct (readable f1); reflexivity.
Qed.

(** *** Hashing in chunks *)

Lemma read_chunks_bounded (n : nat) :
  0 < n ->
  forall (fuel : nat) (data : list byte),
    Forall (fun chunk => 1 <= List.length chunk <= n)
           (read_chunks fuel n data).
Proof.
  intros Hn. induction fuel as [|fuel IH]; intros data; [constructor|].
  destruct data as [|b data]; [constructor|].
  cbn [read_chunks]. constructor; [|apply IH].
  rewrite length_firstn. cbn [List.length]. lia.
Qed.

Lemma read_chunks_whole (n : nat) :
  0 < n ->
  forall (fuel : nat) (data : list byte),
    List.length data <= fuel ->
    List.concat (read_chunks fuel n data) = data.
Proof.
  intros Hn. induction fuel as [|fuel IH]; intros data Hlen.
  - destruct data; [reflexivity | simpl in Hlen; lia].
  - destruct data as [|b data]; [reflexivity|].
    cbn [read_chunks List.concat]. rewrite IH.
    + apply firstn_skipn.
    + rewrite length_skipn. cbn [List.length] in *. lia.
Qed.

(** X6. The digest of a file is computed from chunks of at most 4096 bytes,
    none of them empty, which put together are the whole content: the result
    is the digest of the whole file when the file can be opened, and the
    exception of [open] otherwise. *)
Theorem get_file_hash_streams_whole_file
        (sha256_hexdigest : list byte -> string) (t : fs) (filepath : path) :
  match Os.open_rb t filepath with
  | Ok data =>
      get_file_hash sha256_hexdigest t filepath = Ok (sha256_hexdigest data)
      /\ Forall (fun chunk => 1 <= List.length chunk <= 4096)
                (read_chunks (List.length data) 4096 data)
      /\ List.concat (read_chunks (List.length data) 4096 data) = data
      /\ fold_left hash_update (read_chunks (List.length data) 4096 data)
                   hash_new = data
  | Raise e => get_file_hash sha256_hexdigest t filepath = Raise e
  end.
Proof.
  rewrite get_file_hash_whole.
  destruct (Os.open_rb t filepath) as [data|e]; [|reflexivity].
  split; [reflexivity|]. split; [|split].
  - apply read_chunks_bounded. lia.
  - apply read_chunks_whole; lia.
  - rewrite read_chunks_concat; [reflexivity | lia | lia].
Qed.

(** *** The renamed path *)

Lemma rfind_dot_app (a b : list ascii) :
  OsPath.rfind_dot (a ++ b)
  = match OsPath.rfind_dot b with
    | Some i => Some (List.length a + i)
    | None => OsPath.rfind_dot a
    end.
Proof.
  induction a as [|c a IH]; simpl.
  - now destruct (OsPath.rfind_dot b).
  - rewrite IH. destruct (OsPath.rfind_dot b); [reflexivity|].
    now destruct (OsPath.rfind_dot a).
Qed.

Lemma rfind_dot_no_dot (l : list ascii) :
  no_dot l -> OsPath.rfind_dot l = None.
Proof.
  unfold no_dot. induction l as [|c l IH]; simpl; [reflexivity|].
  intros H. apply andb_prop in H as [Hc Hl]. rewrite (IH Hl).
  now destruct (OsPath.is_dot c).
Qed.

(** From the last dot on there is a dot and then none. *)
Lemma rfind_dot_skipn (l : list ascii) (d : nat) :
  OsPath.rfind_dot l = Some d ->
  d < List.length l /\ OsPath.rfind_dot (skipn d l) = Some 0.
Proof.
  revert d. induction l as [|c l IH]; simpl; [discriminate|].
  intros d. destruct (OsPath.rfind_dot l) as [i|] eqn:E.
  - intros H. injection H as <-. destruct (IH i eq_refl) as [Hlt Hs].
    split; [lia | exact Hs].
  - destruct (OsPath.is_dot c) eqn:Ec; [|discriminate].
    intros H. injection H as <-. split; [lia|]. simpl. now rewrite E, Ec.
Qed.

Lemma uint_of_string_no_dot (s : string) (d : Decimal.uint) :
  DecimalString.NilEmpty.uint_of_string s = Some d ->
  no_dot (list_ascii_of_string s).
Proof.
  unfold no_dot. revert d.
  induction s as [|c s IH]; intros d; simpl; [reflexivity|].
  destruct (DecimalString.NilEmpty.uint_of_string s) as [d'|] eqn:E;
    [|simpl; discriminate].
  rewrite (IH d' eq_refl), andb_true_r.
  unfold OsPath.is_dot. destruct (Ascii.eqb_spec c ".") as [->|]; [|reflexivity].
  simpl. discriminate.
Qed.

Lemma format_03d_no_dot (n : nat) :
  no_dot (list_ascii_of_string (Str.format_03d n)).
Proof.
  pose proof (parse_format_03d n) as H. unfold Str.parse_decimal in H.
  destruct (DecimalString.NilEmpty.uint_of_string (Str.format_03d n))
    as [d|] eqn:E; [|discriminate].
  eapply uint_of_string_no_dot; eauto.
Qed.

Lemma append_empty_r (s : string) : (s ++ "")%string = s.
Proof. induction s as [|c s IH]; simpl; [reflexivity | now rewrite IH]. Qed.

(** Putting a dot-free piece between stem and extension keeps the
    extension. *)
Lemma splitext_insert (filename : string) (mid : string) :
  no_dot (list_ascii_of_string mid) ->
  OsPath.splitext (fst (OsPath.splitext filename) ++ mid
                   ++ snd (OsPath.splitext filename))%string
  = ((fst (OsPath.splitext filename) ++ mid)%string,
     snd (OsPath.splitext filename)).
Proof.
  intros Hmid.
  destruct (OsPath.splitext filename) as [name ext] eqn:Es. cbn [fst snd].
  unfold OsPath.splitext in Es.
  destruct (OsPath.rfind_dot (list_ascii_of_string filename)) as [d|] eqn:Ed.
  - destruct (existsb (fun c => negb (OsPath.is_dot c))
                      (firstn d (list_ascii_of_string filename))) eqn:Ex;
      injection Es as <- <-.
    + destruct (rfind_dot_skipn _ Ed) as [Hlt Hs].
      unfold OsPath.splitext.
      rewrite !list_ascii_of_string_append,
              !list_ascii_of_string_of_list_ascii.
      rewrite app_assoc, rfind_dot_app, Hs, Nat.add_0_r.
      rewrite firstn_app, Nat.sub_diag, firstn_all. cbn [firstn].
      rewrite app_nil_r, existsb_app, Ex. cbn [orb].
      rewrite skipn_app, Nat.sub_diag, skipn_all. cbn [skipn app].
      rewrite <- (list_ascii_of_string_of_list_ascii
                    (firstn d (list_ascii_of_string filename))) at 1.
      rewrite <- list_ascii_of_string_append,
              !string_of_list_ascii_of_string.
      reflexivity.
    + rewrite append_empty_r. unfold OsPath.splitext.
      rewrite list_ascii_of_string_append, rfind_dot_app,
              (rfind_dot_no_dot Hmid), Ed.
      destruct (rfind_dot_skipn _ Ed) as [Hlt _].
      rewrite firstn_app.
      replace (d - List.length (list_ascii_of_string filename)) with 0 by lia.
      cbn [firstn]. rewrite app_nil_r, Ex. reflexivity.
  - injection Es as <- <-. rewrite append_empty_r. unfold OsPath.splitext.
    now rewrite list_ascii_of_string_append, rfind_dot_app,
                (rfind_dot_no_dot Hmid), Ed.
Qed.

(** X7. A renamed path stays in the directory of the path it replaces and
    keeps that path's extension (as [os.path.splitext] sees it): only the
    stem changes.  [handle_name_conflict] always returns such a path, and the
    path it returns is free. *)
Theorem renamed_path_keeps_directory_and_extension (t : fs)
        (dest_path : path) :
  match handle_name_conflict t dest_path with
  | Some d =>
      OsPath.dirname d = OsPath.dirname dest_path
      /\ snd (OsPath.splitext (OsPath.basename d))
         = snd (OsPath.splitext (OsPath.basename dest_path))
      /\ Os.path_exists t d = false
  | None => False
  end.
Proof.
  destruct (handle_name_conflict t dest_path) as [d|] eqn:Eh.
  2:{ destruct (handle_name_conflict_free t dest_path) as [p [Hp _]].
      congruence. }
  split; [|split; [|eapply handle_name_conflict_fresh; eauto]];
    unfold handle_name_conflict in Eh;
    destruct (Os.path_exists t dest_path); simpl in Eh;
    try (injection Eh as <-; reflexivity).
  - destruct (OsPath.splitext (OsPath.basename dest_path)) as [name ext].
    destruct (scan_names_some _ _ _ _ _ _ Eh) as [n [_ [-> _]]].
    unfold candidate. apply removelast_join.
  - pose proof (@splitext_insert (OsPath.basename dest_path)) as Hins.
    destruct (OsPath.splitext (OsPath.basename dest_path)) as [name ext].
    destruct (scan_names_some _ _ _ _ _ _ Eh) as [n [_ [-> _]]].
    unfold candidate. rewrite basename_join. cbn [fst snd] in *.
    specialize (Hins ("_" ++ Str.format_03d n)%string).
    simpl in Hins. simpl. rewrite Hins; [reflexivity|].
    unfold no_dot. simpl. apply format_03d_no_dot.
Qed.

(** *** Discovery and the extension filter *)

Lemma filter_flat_map {A B : Type} (g : B -> bool) (f : A -> list B)
      (l : list A) :
  filter g (flat_map f l) = flat_map (fun x => filter g (f x)) l.
Proof.
  induction l as [|a l IH]; simpl; [reflexivity|].
  now rewrite filter_app, IH.
Qed.

Lemma collect_filter (extensions : option (list string))
      (triples : list (path * list string * list string)) :
  collect extensions triples
  = filter (fun p => extension_matches extensions (OsPath.basename p))
           (collect None triples).
Proof.
  unfold collect. rewrite filter_flat_map. apply flat_map_ext.
  intros [[root dirs] files]. rewrite filter_flat_map. apply flat_map_ext.
  intros file. cbn [extension_matches truthy filter].
  rewrite basename_join. destruct (extension_matches extensions file);
    reflexivity.
Qed.

(** X8. The extension filter only selects: what discovery returns with a
    filter is what it returns without one, in the same order, minus the
    files whose extension is not in the normalised list.  [None] and the
    empty list both mean "all files". *)
Theorem get_all_files_filters (t : fs) (input_dir : path)
        (extensions : option (list string)) :
  get_all_files t input_dir extensions
  = filter (fun p => extension_matches (normalize_extensions extensions)
                                       (OsPath.basename p))
           (get_all_files t input_dir None)
  /\ get_all_files t input_dir (Some []) = get_all_files t input_dir None.
Proof.
  split; [|reflexivity].
  assert (forall e, get_all_files t input_dir e
                    = collect (normalize_extensions e) (os_walk t input_dir))
    as Hc by reflexivity.
  rewrite !Hc. apply collect_filter.
Qed.

Lemma mem_In (s : string) (l : list string) :
  Str.mem s l = true <-> In s l.
Proof.
  unfold Str.mem. rewrite existsb_exists. split.
  - intros [x [Hin Heq]]. apply String.eqb_eq in Heq. now subst.
  - intros Hin. exists s. split; [assumption | apply String.eqb_refl].
Qed.

Lemma child_In_entry (n : string) (es : list (string * node)) (sub : node) :
  Fs.child n es = Some sub -> In (n, sub) es.
Proof.
  induction es as [|[m y] es IH]; simpl; [discriminate|].
  destruct (String.eqb_spec n m) as [->|_].
  - intros H. injection H as ->. now left.
  - intros H. right. auto.
Qed.

Lemma In_entry_child (n : string) (es : list (string * node)) (sub : node) :
  distinct (map fst es) = true -> In (n, sub) es -> Fs.child n es = Some sub.
Proof.
  induction es as [|[m y] es IH]; simpl; [contradiction|].
  intros Hd. apply andb_prop in Hd as [Hm Hd].
  intros [Heq | Hin].
  - injection Heq as -> ->. now rewrite String.eqb_refl.
  - destruct (String.eqb_spec n m) as [->|_]; [|auto].
    exfalso. apply negb_true_iff in Hm.
    assert (Str.mem m (map fst es) = true) as Hmem
        by (apply mem_In, in_map_iff; exists (m, sub); auto).
    congruence.
Qed.

Lemma names_unique_dir (w : bool) (es : list (string * node)) :
  names_unique (Dir w es) = true ->
  distinct (map fst es) = true
  /\ Forall (fun e => names_unique (snd e) = true) es.
Proof.
  cbn [names_unique]. intros H. apply andb_prop in H as [Hd Hb].
  split; [assumption|]. clear Hd.
  induction es as [|e es IH]; [constructor|].
  apply andb_prop in Hb as [He Hb]. constructor; auto.
Qed.

Lemma names_unique_lookup :
  forall (p : path) (t x : node),
    names_unique t = true -> Fs.lookup t p = Some x -> names_unique x = true.
Proof.
  induction p as [|c p IH]; intros t x Hu; simpl.
  - intros H. now injection H as <-.
  - destruct t as [f|w es]; [discriminate|].
    destruct (Fs.child c es) as [sub|] eqn:Ec; [|discriminate].
    apply IH. apply names_unique_dir in Hu as [_ Hall].
    rewrite Forall_forall in Hall.
    apply (Hall (c, sub)). now apply child_In_entry.
Qed.

Lemma In_own_files (extensions : option (list string)) (top p : path)
      (es : list (string * node)) :
  In p (own_files extensions top es)
  <-> exists n f, In (n, File f) es
                  /\ extension_matches extensions n = true
                  /\ p = OsPath.join top n.
Proof.
  unfold own_files. rewrite in_flat_map. split.
  - intros [[n x] [Hin Hp]]. cbn [fst snd] in Hp.
    destruct x as [f|w' es']; [|contradiction].
    destruct (extension_matches extensions n) eqn:Em; [|contradiction].
    destruct Hp as [<-|[]]. exists n, f. auto.
  - intros [n [f [Hin [Hm ->]]]]. exists (n, File f). split; [assumption|].
    cbn [fst snd]. rewrite Hm. now left.
Qed.

Lemma In_files_in_order (extensions : option (list string)) (x : node) :
  names_unique x = true ->
  forall top p,
    In p (files_in_order extensions top x)
    <-> exists rel f,
        rel <> [] /\ p = top ++ rel
        /\ Fs.lookup x rel = Some (File f)
        /\ extension_matches extensions (OsPath.basename rel) = true.
Proof.
  induction x as [f|w es IH] using node_nested_ind; intros Hu top p.
  - simpl. split; [contradiction|].
    intros [[|c rel] [f' [Hne [_ [Hl _]]]]]; [congruence | discriminate].
  - apply names_unique_dir in Hu as [Hd Hall].
    rewrite Forall_forall in IH, Hall.
    rewrite files_in_order_dir, in_app_iff, In_own_files.
    unfold files_below. rewrite in_flat_map. split.
    + intros [[n [f [Hin [Hm ->]]]] | [[n sub] [Hin Hp]]].
      * exists [n], f. repeat split; try assumption; [discriminate|].
        simpl. now rewrite (@In_entry_child _ _ _ Hd Hin).
      * cbn [fst snd] in Hp.
        apply (IH (n, sub) Hin (Hall (n, sub) Hin)) in Hp.
        destruct Hp as [rel [f [Hne [-> [Hl Hm]]]]].
        exists (n :: rel), f. repeat split.
        -- discriminate.
        -- unfold OsPath.join. now rewrite <- app_assoc.
        -- simpl. now rewrite (@In_entry_child _ _ _ Hd Hin).
        -- destruct rel; [congruence | exact Hm].
    + intros [[|n rel] [f [Hne [-> [Hl Hm]]]]]; [congruence|].
      simpl in Hl. destruct (Fs.child n es) as [sub|] eqn:Ec; [|discriminate].
      apply child_In_entry in Ec.
      destruct rel as [|c rel].
      * left. simpl in Hl. injection Hl as ->. exists n, f. auto.
      * right. exists (n, sub). split; [assumption|]. cbn [fst snd].
        apply (IH (n, sub) Ec (Hall (n, sub) Ec)).
        exists (c :: rel), f. repeat split; try assumption; [discriminate|].
        unfold OsPath.join. now rewrite <- app_assoc.
Qed.

(** X9. Discovery is exact on a file system in which no directory lists a
    name twice: a path is returned by [get_all_files] if and only if it lies
    strictly below the input directory, is a regular file, and its name
    passes the extension filter.  Directories are never returned, and no
    matching file at any depth is left out. *)
Theorem get_all_files_exact (t : fs) (input_dir : path)
        (extensions : option (list string)) (p : path)
        (Hunique : names_unique t = true) :
  In p (get_all_files t input_dir extensions)
  <-> exists rel f,
      rel <> [] /\ p = input_dir ++ rel
      /\ Fs.lookup t p = Some (File f)
      /\ extension_matches (normalize_extensions extensions)
                           (OsPath.basename p) = true.
Proof.
  rewrite get_all_files_in_order.
  assert (forall rel, rel <> [] ->
                      OsPath.basename (input_dir ++ rel) = OsPath.basename rel)
    as Hbase.
  { intros rel Hne. unfold OsPath.basename.
    destruct (@exists_last _ rel Hne) as [r' [a ->]].
    now rewrite app_assoc, !last_last. }
  destruct (Fs.lookup t input_dir) as [x|] eqn:Ex.
  - rewrite (@In_files_in_order _ x (@names_unique_lookup _ _ _ Hunique Ex)).
    split; intros [rel [f [Hne [-> [Hl Hm]]]]]; exists rel, f;
      repeat split; try assumption.
    + now rewrite lookup_app, Ex.
    + now rewrite Hbase.
    + now rewrite lookup_app, Ex in Hl.
    + now rewrite Hbase in Hm.
  - simpl. split; [contradiction|].
    intros [rel [f [_ [-> [Hl _]]]]]. rewrite lookup_app, Ex in Hl.
    discriminate.
Qed.

Lemma get_all_files_exact_witness :
  names_unique fs_two_levels = true
  /\ (In ["src"; "a"; "b.txt"] (get_all_files fs_two_levels ["src"] (Some ["TXT"]))
      <-> exists rel f,
          rel <> [] /\ ["src"; "a"; "b.txt"] = ["src"] ++ rel
          /\ Fs.lookup fs_two_levels ["src"; "a"; "b.txt"] = Some (File f)
          /\ extension_matches (normalize_extensions (Some ["TXT"]))
                               (OsPath.basename ["src"; "a"; "b.txt"]) = true).
Proof.
  split; [reflexivity|].
  apply (@get_all_files_exact fs_two_levels ["src"] (Some ["TXT"])
           ["src"; "a"; "b.txt"]).
  reflexivity.
Defined.

Lemma distinct_cons (a : string) (l : list string) :
  distinct (a :: l) = true -> ~ In a l /\ distinct l = true.
Proof.
  simpl. intros H. apply andb_prop in H as [Ha Hl]. split; [|assumption].
  intros Hin. apply mem_In in Hin. apply negb_true_iff in Ha. congruence.
Qed.

Lemma own_files_NoDup (extensions : option (list string)) (top : path)
      (es : list (string * node)) :
  distinct (map fst es) = true -> NoDup (own_files extensions top es).
Proof.
  induction es as [|[n x] es IH]; [constructor|].
  cbn [map fst]. intros Hd. apply distinct_cons in Hd as [Hn Hd].
  change (own_files extensions top ((n, x) :: es))
    with ((match x with
           | File _ => if extension_matches extensions n
                       then [OsPath.join top n] else []
           | Dir _ _ => []
           end) ++ own_files extensions top es).
  destruct x as [f|w' es']; [|apply IH, Hd].
  destruct (extension_matches extensions n); [|apply IH, Hd].
  simpl. constructor; [|apply IH, Hd].
  intros Hin. apply In_own_files in Hin as [m [f' [Hin [_ Heq]]]].
  unfold OsPath.join in Heq. apply app_inv_head in Heq. injection Heq as ->.
  apply Hn. apply in_map_iff. exists (m, File f'). auto.
Qed.

Lemma files_in_order_NoDup (extensions : option (list string)) (x : node) :
  names_unique x = true ->
  forall top, NoDup (files_in_order extensions top x).
Proof.
  induction x as [f|w es IH] using node_nested_ind; intros Hu top;
    [constructor|].
  apply names_unique_dir in Hu as [Hd Hall].
  rewrite files_in_order_dir. apply NoDup_app.
  - now apply own_files_NoDup.
  - unfold files_below. clear w.
    induction es as [|[n sub] es IHes]; [constructor|].
    cbn [flat_map fst snd map] in *.
    apply distinct_cons in Hd as [Hn Hd].
    inversion IH as [|? ? Hsub IH']; subst.
    inversion Hall as [|? ? Hu Hall']; subst. cbn [snd] in *.
    apply NoDup_app; [now apply Hsub | now apply IHes|].
    intros p Hp Hp'.
    apply (In_files_in_order extensions sub Hu) in Hp
      as [rel [f [_ [-> _]]]].
    apply in_flat_map in Hp' as [[m sub'] [Hin Hp']]. cbn [fst snd] in Hp'.
    rewrite Forall_forall in Hall'.
    apply (In_files_in_order extensions sub' (Hall' _ Hin)) in Hp'
      as [rel' [f' [_ [Heq _]]]].
    unfold OsPath.join in Heq. rewrite <- !app_assoc in Heq.
    apply app_inv_head in Heq. injection Heq as -> _.
    apply Hn. apply in_map_iff. exists (m, sub'). auto.
  - intros p Hp Hp'.
    apply In_own_files in Hp as [n [f [_ [_ ->]]]].
    unfold files_below in Hp'.
    apply in_flat_map in Hp' as [[m sub'] [Hin Hp']]. cbn [fst snd] in Hp'.
    rewrite Forall_forall in Hall.
    apply (In_files_in_order extensions sub' (Hall _ Hin)) in Hp'
      as [rel' [f' [Hne [Heq _]]]].
    unfold OsPath.join in Heq. rewrite <- !app_assoc in Heq.
    apply app_inv_head in Heq. injection Heq as _ Heq.
    now destruct rel'.
Qed.

(** X10. On a file system in which no directory lists a name twice,
    discovery returns every file once: the list of [get_all_files] has no
    repetition, so no file is handled twice by a run. *)
Theorem get_all_files_NoDup (t : fs) (input_dir : path)
        (extensions : option (list string))
        (Hunique : names_unique t = true) :
  NoDup (get_all_files t input_dir extensions).
Proof.
  rewrite get_all_files_in_order.
  destruct (Fs.lookup t input_dir) as [x|] eqn:Ex; [|constructor].
  apply files_in_order_NoDup.
  eapply names_unique_lookup; eauto.
Qed.

Lemma get_all_files_NoDup_witness :
  names_unique fs_same_name = true
  /\ NoDup (get_all_files fs_same_name ["src"] None).
Proof.
  split; [reflexivity|].
  apply (@get_all_files_NoDup fs_same_name ["src"] None). reflexivity.
Defined.

(** *** The configuration store *)







Section ConfigStoreProperties.

Variable value : Type.
Variable json_dump : value -> list byte.
Variable json_load : list byte -> option value.
Variable script_dir : path.



End ConfigStoreProperties.








(** *** What a copying run adds to the destination *)








Section CopyAdds.

Variable sha256_hexdigest : list byte -> string.
Variables (output_dir : path) (conflict_resolution : string).



End CopyAdds.



(** *** The interactive set-up *)

Lemma lstrip_by_suffix (drop : ascii -> bool) (l : list ascii) :
  exists d, l = d ++ Prompt.lstrip_by drop l.
Proof.
  induction l as [|c l [d IH]]; simpl; [now exists []|].
  destruct (drop c); [|now exists []].
  exists (c :: d). simpl. now rewrite <- IH.
Qed.

Lemma lstrip_by_head (drop : ascii -> bool) (l : list ascii) (c : ascii)
      (rest : list ascii) :
  Prompt.lstrip_by drop l = c :: rest -> drop c = false.
Proof.
  induction l as [|a l IH]; simpl; [discriminate|].
  destruct (drop a) eqn:Ea; [exact IH|].
  intros H. now injection H as <- _.
Qed.

Lemma strip_by_head (drop : ascii -> bool) (s : string) (c : ascii)
      (rest : string) :
  Prompt.strip_by drop s = String c rest -> drop c = false.
Proof.
  unfold Prompt.strip_by. intros H.
  apply (f_equal list_ascii_of_string) in H.
  rewrite list_ascii_of_string_of_list_ascii in H. simpl in H.
  destruct (lstrip_by_suffix drop
              (rev (Prompt.lstrip_by drop (list_ascii_of_string s))))
    as [d Hd].
  apply (f_equal (@rev ascii)) in Hd.
  rewrite rev_involutive, rev_app_distr, H in Hd. simpl in Hd.
  eapply lstrip_by_head; eauto.
Qed.

Lemma words_cur (cur : list ascii) :
  cur <> [] -> forall l, Prompt.words l cur <> [].
Proof.
  intros Hc l. revert cur Hc.
  induction l as [|c l IH]; intros cur Hc; simpl.
  - destruct cur; [congruence | discriminate].
  - destruct (Prompt.is_space c).
    + destruct cur; [congruence | discriminate].
    + apply IH. discriminate.
Qed.

Lemma words_not_empty (l cur : list ascii) :
  Forall (fun w => w <> EmptyString) (Prompt.words l cur).
Proof.
  assert (forall x : list ascii, x <> [] ->
                                 string_of_list_ascii (rev x) <> EmptyString)
    as Hne.
  { intros x Hx H. apply (f_equal list_ascii_of_string) in H.
    rewrite list_ascii_of_string_of_list_ascii in H. simpl in H.
    apply (f_equal (@rev ascii)) in H. rewrite rev_involutive in H.
    now apply Hx. }
  revert cur. induction l as [|c l IH]; intros cur; simpl.
  - destruct cur; constructor; [|constructor]. apply Hne. discriminate.
  - destruct (Prompt.is_space c); [|apply IH].
    destruct cur; [apply IH|]. constructor; [|apply IH].
    apply Hne. discriminate.
Qed.

Lemma split_stripped (line : string) :
  Prompt.is_empty (Prompt.strip line) = false ->
  Prompt.split (Prompt.strip line) <> [].
Proof.
  unfold Prompt.split, Prompt.strip.
  destruct (Prompt.strip_by Prompt.is_space line) as [|c rest] eqn:E;
    [discriminate|].
  intros _. simpl. rewrite (strip_by_head _ _ E).
  apply words_cur. discriminate.
Qed.

Section ManualConfigProperties.

Variable resolve : string -> path.

Lemma ask_input_dir_some (t : fs) :
  forall lines d rest,
    ask_input_dir resolve t lines = Some (d, rest) ->
    isdir_str resolve t d = true
    /\ exists used, lines = used ++ rest /\ 1 <= List.length used.
Proof.
  induction lines as [|line lines IH]; intros d rest; simpl; [discriminate|].
  destruct (exists_str resolve t _ && isdir_str resolve t _) eqn:E.
  - intros H. injection H as <- <-. apply andb_prop in E as [_ E].
    split; [assumption|]. exists [line]. split; [reflexivity | simpl; lia].
  - intros H. destruct (IH _ _ H) as [Hd [used [-> Hlen]]].
    split; [assumption|]. exists (line :: used).
    split; [reflexivity | simpl; lia].
Qed.

Lemma ask_choice_some (allowed : list string) :
  forall lines c rest,
    ask_choice allowed lines = Some (c, rest) ->
    In c allowed
    /\ exists used, lines = used ++ rest /\ 1 <= List.length used.
Proof.
  induction lines as [|line lines IH]; intros c rest; simpl; [discriminate|].
  destruct (Str.mem (Prompt.strip line) allowed) eqn:E.
  - intros H. injection H as <- <-. split; [now apply mem_In|].
    exists [line]. split; [reflexivity | simpl; lia].
  - intros H. destruct (IH _ _ H) as [Hc [used [-> Hlen]]].
    split; [assumption|]. exists (line :: used).
    split; [reflexivity | simpl; lia].
Qed.

End ManualConfigProperties.

(** X15. A configuration that [get_manual_config] returns has been checked:
    its input folder is an existing directory, its output folder exists (it
    was there or has just been created), the conflict option is one of
    "rename", "skip" and "overwrite", and an extension list, when there is
    one, is not empty and holds no empty name.  At least five lines of input
    were used, and nothing in the file system was lost on the way. *)
Theorem get_manual_config_checked (resolve : string -> path) (t t' : fs)
        (lines rest : list string) (c : config)
        (Hdone : get_manual_config resolve t lines = Done (c, rest, t')) :
  isdir_str resolve t' (cfg_input_dir c) = true
  /\ exists_str resolve t' (cfg_output_dir c) = true
  /\ In (cfg_conflict_resolution c) ["rename"; "skip"; "overwrite"]
  /\ match cfg_extensions c with
     | None => True
     | Some l => l <> [] /\ Forall (fun e => e <> EmptyString) l
     end
  /\ (exists used, lines = used ++ rest /\ 5 <= List.length used)
  /\ fs_grows t t'.
Proof.
  unfold get_manual_config in Hdone.
  destruct (ask_input_dir resolve t lines) as [[input_dir l1]|] eqn:E1;
    [|discriminate].
  destruct (ask_input_dir_some _ _ _ E1) as [Hin [u1 [-> L1]]].
  destruct l1 as [|line l2]; [discriminate|].
  set (output_dir := Prompt.strip_quotes (Prompt.strip line)) in *.
  destruct (if negb (exists_str resolve t output_dir)
            then makedirs_str resolve t output_dir else Ok t)
    as [t1|e] eqn:E2; [|discriminate].
  assert (fs_grows t t1 /\ exists_str resolve t1 output_dir = true)
    as [G Hout].
  { destruct (exists_str resolve t output_dir) eqn:Ex; simpl in E2.
    - injection E2 as <-. split; [apply fs_grows_refl | assumption].
    - unfold makedirs_str in E2. unfold exists_str.
      destruct (Prompt.is_empty output_dir); [discriminate|].
      split; [eapply makedirs_grows; eauto|].
      apply makedirs_isdir in E2. unfold Os.isdir in E2.
      unfold Os.path_exists.
      now destruct (Fs.lookup t1 (resolve output_dir)). }
  destruct (ask_choice ["1"; "2"] l2) as [[ch1 l3]|] eqn:E3; [|discriminate].
  destruct (ask_choice_some _ _ E3) as [_ [u3 [-> L3]]].
  destruct (if String.eqb ch1 "2" then _ else _) as [[exts l4]|] eqn:E4;
    [|discriminate].
  destruct (ask_choice ["1"; "2"] l4) as [[ch2 l5]|] eqn:E5; [|discriminate].
  destruct (ask_choice_some _ _ E5) as [_ [u5 [-> L5]]].
  destruct (ask_choice ["1"; "2"; "3"] l5) as [[ch3 l6]|] eqn:E6;
    [|discriminate].
  destruct (ask_choice_some _ _ E6) as [Hch3 [u6 [-> L6]]].
  injection Hdone as <- <- <-. cbn [cfg_input_dir cfg_output_dir
    cfg_conflict_resolution cfg_extensions].
  assert (exists u4, l3 = u4 ++ u5 ++ u6 ++ l6
                     /\ match exts with
                        | None => True
                        | Some l => l <> []
                                    /\ Forall (fun e => e <> EmptyString) l
                        end) as [u4 [-> Hexts]].
  { destruct (String.eqb ch1 "2").
    - destruct l3 as [|line3 l3']; [discriminate|].
      destruct (Prompt.is_empty (Prompt.strip line3)) eqn:Ee; simpl in E4;
        injection E4 as <- <-; exists [line3]; (split; [reflexivity|]).
      + split; [discriminate|]. repeat constructor; discriminate.
      + split; [now apply split_stripped | apply words_not_empty].
    - injection E4 as <- <-. exists []. split; [reflexivity | exact I]. }
  split; [|split; [exact Hout|split; [|split; [exact Hexts|split; [|exact G]]]]].
  - unfold isdir_str in *. destruct (Prompt.is_empty input_dir);
      [discriminate|]. eapply fs_grows_isdir; eauto.
  - simpl in Hch3. unfold conflict_options.
    destruct Hch3 as [<-|[<-|[<-|[]]]]; simpl; auto.
  - exists (u1 ++ line :: u3 ++ u4 ++ u5 ++ u6).
    split.
    + rewrite <- !app_assoc. simpl. now rewrite <- !app_assoc.
    + rewrite !length_app. simpl. rewrite !length_app. lia.
Qed.

Lemma get_manual_config_checked_witness :
  get_manual_config (fun s => [s]) fs_two_levels
                    ["nope"; "'src'"; "out"; "2"; " WAV .mp3"; "1"; "3"]
  = Done (mkConfig "src" "out" (Some ["WAV"; ".mp3"]) false "overwrite", [],
          Dir true [("src", tree_two_levels); ("out", Dir true [])])
  /\ isdir_str (fun s => [s])
       fs_two_levels_out "src"
     = true.
Proof.
  split; [reflexivity|].
  apply (@get_manual_config_checked (fun s => [s]) fs_two_levels _
           ["nope"; "'src'"; "out"; "2"; " WAV .mp3"; "1"; "3"] []
           (mkConfig "src" "out" (Some ["WAV"; ".mp3"]) false "overwrite")).
  reflexivity.
Defined.

(** *** A destination that cannot be created *)

Lemma makedirs_on_file :
  forall (p : path) (t : node) (f : file),
    Fs.lookup t p = Some (File f) ->
    Os.makedirs_from t p = Raise FileExistsError.
Proof.
  induction p as [|c p IH]; intros t f; simpl.
  - intros H. now injection H as ->.
  - destruct t as [g|w es]; [discriminate|].
    destruct (Fs.child c es) as [sub|]; [|discriminate].
    intros H. now rewrite (IH _ _ H).
Qed.

(** X16. When the output path is an existing regular file, the run stops at
    once with [FileExistsError], in copy and in move mode: [os.makedirs] is
    outside every [try], so no result is returned and no file is looked
    at. *)
Theorem flatten_folder_output_is_file (sha256_hexdigest : list byte -> string)
        (t : fs) (input_dir output_dir : path)
        (extensions : option (list string)) (move_files : bool)
        (conflict_resolution : string) (f : file)
        (Hfile : Fs.lookup t output_dir = Some (File f)) :
  flatten_folder sha256_hexdigest t input_dir output_dir extensions
                 move_files conflict_resolution
  = Raised FileExistsError.
Proof.
  unfold flatten_folder, Os.makedirs.
  now rewrite (makedirs_on_file _ _ Hfile).
Qed.

Lemma flatten_folder_output_is_file_witness :
  Fs.lookup fs_two_levels ["src"; "z.txt"] = Some (sample_file [x02])
  /\ flatten_folder plain_digest fs_two_levels ["src"] ["src"; "z.txt"] None
                    true "rename"
     = Raised FileExistsError.
Proof.
  split; [reflexivity|].
  apply (@flatten_folder_output_is_file plain_digest fs_two_levels ["src"]
           ["src"; "z.txt"] None true "rename" (mkFile [x02] true)).
  reflexivity.
Defined.

(** *** The drum kit generator *)

Lemma flat_map_nil {A B : Type} (f : A -> list B) (l : list A) :
  (forall x, f x = []) -> flat_map f l = [].
Proof.
  intros H. induction l as [|a l IH]; simpl; [reflexivity|].
  now rewrite H, IH.
Qed.

(** X17. [get_audio_files] finds what [get_all_files] finds with the same
    extension list, minus the names it passes over (those starting with
    "._" or ending in ".asd"), in the same order.  The one difference is the
    empty list: it selects no file here, and every file there. *)
Theorem get_audio_files_of_all_files (t : fs) (input_dir : path)
        (extensions : list string) :
  Kit.get_audio_files t input_dir extensions
  = match extensions with
    | [] => []
    | _ :: _ =>
        filter (fun p => negb (Kit.skipped_name (OsPath.basename p)))
               (get_all_files t input_dir (Some extensions))
    end
  /\ get_all_files t input_dir (Some []) = get_all_files t input_dir None.
Proof.
  split; [|reflexivity].
  unfold Kit.get_audio_files.
  destruct extensions as [|e exts].
  - apply flat_map_nil. intros [[root dirs] files].
    apply flat_map_nil. intros file. cbn [map Str.mem existsb].
    now destruct (Kit.skipped_name file).
  - assert (get_all_files t input_dir (Some (e :: exts))
            = collect (normalize_extensions (Some (e :: exts)))
                      (os_walk t input_dir)) as -> by reflexivity.
    unfold collect. rewrite filter_flat_map. apply flat_map_ext.
    intros [[root dirs] files]. rewrite filter_flat_map. apply flat_map_ext.
    intros file.
    cbn [normalize_extensions truthy option_map extension_matches map].
    destruct (Kit.skipped_name file) eqn:Es.
    + destruct (Str.mem _ _); cbn [filter]; [|reflexivity].
      now rewrite basename_join, Es.
    + destruct (Str.mem _ _); cbn [filter]; [|reflexivity].
      now rewrite basename_join, Es.
Qed.

Lemma prefix_append (sub s : string) :
  String.prefix sub s = true <-> exists post, s = (sub ++ post)%string.
Proof.
  revert sub. induction s as [|d s IH]; intros sub; simpl.
  - destruct sub as [|c sub].
    + split; [intros _; now exists EmptyString | reflexivity].
    + split; [discriminate|]. intros [post H]. discriminate.
  - destruct sub as [|c sub]; [split; [intros _; now eexists | reflexivity]|].
    destruct (Ascii.ascii_dec c d) as [->|Hne]; cbn.
    + rewrite IH. split; intros [post H]; exists post; [simpl; now rewrite H|].
      now injection H.
    + split; [discriminate|]. intros [post H]. injection H as H _.
      congruence.
Qed.

(** [contains] is the substring test. *)
Lemma contains_substring (sub s : string) :
  Kit.contains sub s = true
  <-> exists pre post, s = (pre ++ sub ++ post)%string.
Proof.
  induction s as [|d s IH].
  - cbn [Kit.contains]. rewrite orb_false_r, prefix_append. split.
    + intros [post H]. exists EmptyString, post. exact H.
    + intros [[|c pre] [post H]]; [now exists post | discriminate].
  - cbn [Kit.contains]. rewrite orb_true_iff, prefix_append, IH. split.
    + intros [[post H] | [pre [post H]]].
      * exists EmptyString, post. exact H.
      * exists (String d pre), post. simpl. now rewrite H.
    + intros [[|c pre] [post H]].
      * left. now exists post.
      * right. injection H as _ H. now exists pre, post.
Qed.

Lemma first_match_some (name : string) :
  forall pats category,
    Kit.first_match pats name = Some category ->
    exists before keywords after keyword,
      pats = before ++ (category, keywords) :: after
      /\ In keyword keywords
      /\ Kit.contains keyword name = true
      /\ forall c kws kw, In (c, kws) before -> In kw kws ->
                          Kit.contains kw name = false.
Proof.
  induction pats as [|[c kws] pats IH]; intros category; simpl;
    [discriminate|].
  destruct (existsb (fun keyword => Kit.contains keyword name) kws) eqn:E.
  - intros H. injection H as <-. apply existsb_exists in E as [kw [Hin Hc]].
    exists [], kws, pats, kw. repeat split; try assumption.
    intros ? ? ? [].
  - intros H. destruct (IH _ H) as [b [k [a [kw [-> [Hin [Hc Hb]]]]]]].
    exists ((c, kws) :: b), k, a, kw. repeat split; try assumption.
    intros c' kws' kw' [Heq | Hin'] Hkw; [|eapply Hb; eauto].
    injection Heq as <- <-.
    destruct (Kit.contains kw' name) eqn:Ec; [|reflexivity].
    assert (existsb (fun keyword => Kit.contains keyword name) kws = true)
      as Ht by (apply existsb_exists; eauto).
    congruence.
Qed.

Lemma first_match_none (name : string) :
  forall pats,
    Kit.first_match pats name = None ->
    forall c kws kw, In (c, kws) pats -> In kw kws ->
                     Kit.contains kw name = false.
Proof.
  induction pats as [|[c kws] pats IH]; simpl; [intros _ ? ? ? []|].
  destruct (existsb (fun keyword => Kit.contains keyword name) kws) eqn:E;
    [discriminate|].
  intros H c' kws' kw' [Heq | Hin] Hkw; [|eapply IH; eauto].
  injection Heq as <- <-.
  destruct (Kit.contains kw' name) eqn:Ec; [|reflexivity].
  assert (existsb (fun keyword => Kit.contains keyword name) kws = true)
    as Ht by (apply existsb_exists; eauto).
  congruence.
Qed.

(** X18. The first matching keyword decides the category: a file goes to
    the first category, in the order of the table, one of whose keywords
    occurs somewhere in its lower-cased name, whatever later categories
    would match as well; it goes to "other" exactly when no keyword of any
    category occurs in the name. *)
Theorem category_of_first_match (file_path : path) :
  match Kit.first_match Kit.patterns
                        (Str.lower (OsPath.basename file_path)) with
  | Some category =>
      Kit.category_of file_path = category
      /\ exists before keywords after keyword pre post,
          Kit.patterns = before ++ (category, keywords) :: after
          /\ In keyword keywords
          /\ Str.lower (OsPath.basename file_path)
             = (pre ++ keyword ++ post)%string
          /\ forall c kws kw, In (c, kws) before -> In kw kws ->
                              Kit.contains kw
                                (Str.lower (OsPath.basename file_path))
                              = false
  | None =>
      Kit.category_of file_path = "other"
      /\ forall c kws kw pre post,
          In (c, kws) Kit.patterns -> In kw kws ->
          Str.lower (OsPath.basename file_path)
          <> (pre ++ kw ++ post)%string
  end.
Proof.
  unfold Kit.category_of.
  destruct (Kit.first_match Kit.patterns
                            (Str.lower (OsPath.basename file_path)))
    as [category|] eqn:E.
  - split; [reflexivity|].
    destruct (first_match_some _ _ E) as [b [k [a [kw [Hp [Hin [Hc Hb]]]]]]].
    apply contains_substring in Hc as [pre [post Hc]].
    exists b, k, a, kw, pre, post. auto.
  - split; [reflexivity|].
    intros c kws kw pre post Hin Hkw Heq.
    pose proof (first_match_none _ _ E c kws kw Hin Hkw) as Hn.
    assert (Kit.contains kw (Str.lower (OsPath.basename file_path)) = true)
      as Ht by (apply contains_substring; eauto).
    congruence.
Qed.

Lemma append_to_keys (category : string) (file_path : path)
      (g : string -> list path) (keys : list string) :
  NoDup keys ->
  Kit.append_to category file_path (map (fun k => (k, g k)) keys)
  = map (fun k => (k, g k ++ if String.eqb k category then [file_path]
                             else []))
        keys.
Proof.
  induction keys as [|k keys IH]; intros Hnd; [reflexivity|].
  inversion Hnd as [|? ? Hk Hnd']; subst. cbn [map Kit.append_to].
  destruct (String.eqb_spec k category) as [->|Hne].
  - f_equal. apply map_ext_in. intros k' Hin.
    destruct (String.eqb_spec k' category) as [->|_]; [contradiction|].
    now rewrite app_nil_r.
  - rewrite app_nil_r. f_equal. now apply IH.
Qed.

Lemma categorize_from (keys : list string) (Hnd : NoDup keys)
      (audio_files : list path) :
  forall done,
    fold_left (fun categories file_path =>
                 Kit.append_to (Kit.category_of file_path) file_path
                               categories)
              audio_files
              (map (fun k => (k, filter (fun f => String.eqb k (Kit.category_of f))
                                        done)) keys)
    = map (fun k => (k, filter (fun f => String.eqb k (Kit.category_of f))
                               (done ++ audio_files))) keys.
Proof.
  induction audio_files as [|x rest IH]; intros done; simpl.
  - now rewrite app_nil_r.
  - rewrite (append_to_keys (Kit.category_of x) x
               (fun k => filter (fun f => String.eqb k (Kit.category_of f)) done)
               Hnd).
    replace (done ++ x :: rest) with ((done ++ [x]) ++ rest)
      by (now rewrite <- app_assoc).
    rewrite <- IH. f_equal. apply map_ext. intros k.
    rewrite filter_app. reflexivity.
Qed.

Lemma category_of_key (file_path : path) :
  In (Kit.category_of file_path) (map fst Kit.empty_categories).
Proof.
  unfold Kit.category_of.
  destruct (Kit.first_match Kit.patterns _) as [c|] eqn:E.
  - destruct (first_match_some _ _ E) as [b [k [a [_ [Hp _]]]]].
    assert (In c (map fst Kit.patterns)) as Hin.
    { rewrite Hp, map_app. apply in_or_app. right. now left. }
    simpl in Hin. simpl. intuition.
  - simpl. intuition.
Qed.

Lemma list_sum_map_add {A : Type} (a b : A -> nat) (l : list A) :
  list_sum (map (fun x => a x + b x) l)
  = list_sum (map a l) + list_sum (map b l).
Proof. induction l as [|x l IH]; simpl; lia. Qed.

Lemma list_sum_cons (a : nat) (l : list nat) :
  list_sum (a :: l) = a + list_sum l.
Proof. reflexivity. Qed.

Lemma count_key_absent (c : string) (keys : list string) :
  ~ In c keys ->
  list_sum (map (fun k => if String.eqb k c then 1 else 0) keys) = 0.
Proof.
  induction keys as [|k keys IH]; intros Hk; [reflexivity|].
  cbn [map]. rewrite list_sum_cons.
  destruct (String.eqb_spec k c) as [E|_].
  - exfalso. apply Hk. now left.
  - apply IH. intros H. apply Hk. now right.
Qed.

Lemma count_key (c : string) (keys : list string) :
  NoDup keys -> In c keys ->
  list_sum (map (fun k => if String.eqb k c then 1 else 0) keys) = 1.
Proof.
  induction keys as [|k keys IH]; intros Hnd Hin; [contradiction|].
  inversion Hnd as [|? ? Hk Hnd']; subst. cbn [map]. rewrite list_sum_cons.
  destruct (String.eqb_spec k c) as [E|Hne].
  - subst k. now rewrite count_key_absent.
  - destruct Hin as [Heq | Hin]; [congruence|]. now rewrite IH.
Qed.

Lemma filter_keys_length (cat : path -> string) (keys : list string)
      (files : list path) :
  NoDup keys ->
  (forall f, In f files -> In (cat f) keys) ->
  list_sum (map (fun k => List.length
                            (filter (fun f => String.eqb k (cat f)) files))
                keys)
  = List.length files.
Proof.
  intros Hnd. induction files as [|x files IH]; intros Hin.
  - simpl. clear. induction keys; [reflexivity | assumption].
  - rewrite (map_ext
               (fun k => List.length
                           (filter (fun f => String.eqb k (cat f)) (x :: files)))
               (fun k => (if String.eqb k (cat x) then 1 else 0)
                         + List.length
                             (filter (fun f => String.eqb k (cat f)) files))).
    + rewrite list_sum_map_add, count_key, IH; try assumption.
      * reflexivity.
      * intros f Hf. apply Hin. now right.
      * apply Hin. now left.
    + intros k. cbn [filter].
      destruct (String.eqb k (cat x)); reflexivity.
Qed.

(** X19. [categorize_audio_files] sorts the files into the ten categories
    without losing or repeating any: each category holds exactly the files
    whose category it is, in the order they came in, so the sizes of the
    categories add up to the number of files. *)
Theorem categorize_audio_files_partition (audio_files : list path) :
  Kit.categorize_audio_files audio_files
  = map (fun k => (k, filter (fun f => String.eqb k (Kit.category_of f))
                             audio_files))
        (map fst Kit.empty_categories)
  /\ list_sum (map (fun kv => List.length (snd kv))
                   (Kit.categorize_audio_files audio_files))
     = List.length audio_files.
Proof.
  assert (NoDup (map fst Kit.empty_categories)) as Hnd.
  { simpl. repeat constructor; simpl; intuition discriminate. }
  assert (Kit.categorize_audio_files audio_files
          = map (fun k => (k, filter (fun f => String.eqb k (Kit.category_of f))
                                     audio_files))
                (map fst Kit.empty_categories)) as Heq.
  { unfold Kit.categorize_audio_files.
    apply (categorize_from Hnd audio_files []). }
  split; [exact Heq|].
  rewrite Heq, map_map. cbn [snd].
  apply filter_keys_length; [exact Hnd|].
  intros f _. apply category_of_key.
Qed.

(** *** Which files a copying run reports *)






Section CopyReports.

Variable sha256_hexdigest : list byte -> string.
Variables (output_dir : path) (conflict_resolution : string).




End CopyReports.


